(** * This-or-That: the generation client and the session controller

    A shallow embedding of the React component [App]: the function
    [fetchOptionsFromAI] that talks to the text-generation service, the
    handlers [handleGenerateNew] and [handlePrevious], the regeneration
    effect, and the component as a transition system over user events and
    settled requests. *)

From Stdlib Require Import Ascii String List ZArith Bool Lia DecimalString.
Import ListNotations.
Open Scope string_scope.
Open Scope Z_scope.

#[local] Set Warnings "-register-all".

(** ** JavaScript values as [response.json()] and [JSON.parse] produce them *)

(** A number is kept as an integer: the program only tests a number for
    being zero (truthiness) and for being positive ([length > 0]). *)
Inductive JsValue : Type :=
| JsUndefined
| JsNull
| JsBool (b : bool)
| JsNumber (n : Z)
| JsString (s : string)
| JsArray (elems : list JsValue)
| JsObject (props : list (string * JsValue)).

(** A thrown value; every value this program throws or catches is an
    [Error] object, of which only [message] is read. *)
Record Exn : Type := mkExn { message : string }.

(** ** Exceptions: a computation returns or throws *)

Definition Try (A : Type) : Type := (Exn + A)%type.

Definition ret {A : Type} (x : A) : Try A := inr x.
Definition throw {A : Type} (e : Exn) : Try A := inl e.
Definition bind {A B : Type} (m : Try A) (k : A -> Try B) : Try B :=
  match m with
  | inl e => inl e
  | inr x => k x
  end.

Declare Scope try_scope.
Delimit Scope try_scope with try.
Notation "x <- m ;; k" := (bind m (fun x => k))
  (at level 61, m at next level, right associativity) : try_scope.
Open Scope try_scope.

(** ** What the build and the browser supply

    [apiKey] is [process.env.REACT_APP_GEMINI_API_KEY] ([None] is
    [undefined]).  The other fields are the engine's built-ins, whose
    results this program only passes on: [JSON.parse] (it throws a
    SyntaxError or returns a value), [JSON.stringify], the comparison
    [v > 0] for an operand that needs ToPrimitive (a string, an array or
    an object), and the TypeError raised by reading a property of [null]
    or [undefined]. *)
Class Environment : Type := {
  apiKey : option string;
  JSON_parse : JsValue -> Try JsValue;
  JSON_stringify : JsValue -> string;
  coerced_gt_zero : JsValue -> Try bool;
  nullish_read : JsValue -> string -> Exn
}.

(** ** Property access, truthiness and comparison *)

(** [v.name] and [v[i]] as the source writes them. *)
Inductive Key : Type :=
| Named (name : string)
| Index (i : nat).

Definition key_string (k : Key) : string :=
  match k with
  | Named name => name
  | Index i => NilZero.string_of_uint (Nat.to_uint i)
  end.

Fixpoint own_property (name : string) (props : list (string * JsValue)) : JsValue :=
  match props with
  | [] => JsUndefined
  | (k, v) :: rest => if String.eqb k name then v else own_property name rest
  end.

Definition is_length (k : Key) : bool :=
  match k with
  | Named name => String.eqb name "length"
  | Index _ => false
  end.

(** Reading a property.  On a string or an array, [length] and an index
    are own properties; the other names this program reads ([candidates],
    [content], [parts], [text]) are on no prototype, so they read as
    [undefined] on anything but a plain object. *)
Definition get `{Environment} (v : JsValue) (k : Key) : Try JsValue :=
  match v with
  | JsUndefined | JsNull => throw (nullish_read v (key_string k))
  | JsBool _ | JsNumber _ => ret JsUndefined
  | JsString s =>
      match k with
      | Named _ =>
          if is_length k then ret (JsNumber (Z.of_nat (String.length s)))
          else ret JsUndefined
      | Index i =>
          match String.get i s with
          | Some c => ret (JsString (String c EmptyString))
          | None => ret JsUndefined
          end
      end
  | JsArray elems =>
      match k with
      | Named _ =>
          if is_length k then ret (JsNumber (Z.of_nat (List.length elems)))
          else ret JsUndefined
      | Index i => ret (nth i elems JsUndefined)
      end
  | JsObject props => ret (own_property (key_string k) props)
  end.

Definition truthy (v : JsValue) : bool :=
  match v with
  | JsUndefined | JsNull => false
  | JsBool b => b
  | JsNumber n => negb (n =? 0)
  | JsString s => negb (String.eqb s "")
  | JsArray _ | JsObject _ => true
  end.

(** [v > 0]: [undefined] is NaN, [null] is 0, [true] is 1. *)
Definition gt_zero `{Environment} (v : JsValue) : Try bool :=
  match v with
  | JsNumber n => ret (0 <? n)
  | JsUndefined | JsNull => ret false
  | JsBool b => ret b
  | JsString _ | JsArray _ | JsObject _ => coerced_gt_zero v
  end.

Definition isArray (v : JsValue) : bool :=
  match v with
  | JsArray _ => true
  | _ => false
  end.

Definition typeof_string (v : JsValue) : bool :=
  match v with
  | JsString _ => true
  | _ => false
  end.

(** [options.length === 2], evaluated only once [Array.isArray(options)]
    holds. *)
Definition length_is (v : JsValue) (n : nat) : bool :=
  match v with
  | JsArray elems => Nat.eqb (List.length elems) n
  | _ => false
  end.

Definition element (v : JsValue) (i : nat) : JsValue :=
  match v with
  | JsArray elems => nth i elems JsUndefined
  | _ => JsUndefined
  end.

(** ** The network *)

(** What [fetch] is called with: the endpoint with the key as a query
    parameter, and the payload, which is fixed but for the category the
    prompt names. *)
Record Request : Type := {
  url : string;
  method : string;
  prompt_category : string
}.

(** What [fetch] resolves to: [ok], [status], and the outcome of
    [response.json()]. *)
Record Response : Type := {
  ok : bool;
  status : Z;
  json : Try JsValue
}.

Inductive FetchOutcome : Type :=
| Rejected (e : Exn)
| Resolved (r : Response).

(** ** fetchOptionsFromAI *)

Definition missing_key : Exn :=
  mkExn "GEMINI_API_KEY is not configured. Please set REACT_APP_GEMINI_API_KEY in Netlify environment variables.".

Definition unexpected_format : Exn :=
  mkExn "AI response format was unexpected. Expected an array of two strings.".

Definition empty_or_malformed : Exn :=
  mkExn "Failed to generate options from AI. Response was empty or malformed.".

Definition http_error `{Environment} (r : Response) (errorData : JsValue) : Exn :=
  mkExn ("HTTP error! Status: " ++ NilZero.string_of_int (Z.to_int (status r))
         ++ ". Details: " ++ JSON_stringify errorData).

Definition endpoint : string :=
  "https://generativelanguage.googleapis.com/v1beta/models/gemini-2.0-flash:generateContent?key=".

(** The try block up to the call of [fetch]: the key is read and tested
    ([!apiKey] holds of [undefined] and of the empty string), then the
    request is built. *)
Definition fetchOptionsFromAI_request `{Environment} (category : string) : Try Request :=
  match apiKey with
  | None => throw missing_key
  | Some key =>
      if String.eqb key "" then throw missing_key
      else ret {| url := endpoint ++ key; method := "POST"; prompt_category := category |}
  end.

(** The condition of the [if] over the envelope, with its short-circuit
    order; a property of [null] or [undefined] read on the way throws. *)
Definition envelope_nonempty `{Environment} (result : JsValue) : Try bool :=
  candidates <- get result (Named "candidates") ;;
  if negb (truthy candidates) then ret false else
  n <- get candidates (Named "length") ;;
  some <- gt_zero n ;;
  if negb some then ret false else
  first <- get candidates (Index 0) ;;
  content <- get first (Named "content") ;;
  if negb (truthy content) then ret false else
  parts <- get content (Named "parts") ;;
  if negb (truthy parts) then ret false else
  m <- get parts (Named "length") ;;
  gt_zero m.

(** [result.candidates[0].content.parts[0].text] *)
Definition first_part_text `{Environment} (result : JsValue) : Try JsValue :=
  candidates <- get result (Named "candidates") ;;
  first <- get candidates (Index 0) ;;
  content <- get first (Named "content") ;;
  parts <- get content (Named "parts") ;;
  part <- get parts (Index 0) ;;
  get part (Named "text").

Definition two_strings (options : JsValue) : bool :=
  isArray options && length_is options 2
  && typeof_string (element options 0) && typeof_string (element options 1).

Definition validate `{Environment} (result : JsValue) : Try JsValue :=
  nonempty <- envelope_nonempty result ;;
  if nonempty then
    jsonString <- first_part_text result ;;
    options <- JSON_parse jsonString ;;
    if two_strings options then ret options else throw unexpected_format
  else throw empty_or_malformed.

(** The try block from the point where [fetch] settles. *)
Definition fetchOptionsFromAI_response `{Environment} (o : FetchOutcome) : Try JsValue :=
  match o with
  | Rejected e => throw e
  | Resolved r =>
      if negb (ok r) then
        errorData <- json r ;;
        throw (http_error r errorData)
      else
        result <- json r ;;
        validate result
  end.

Definition catch_message (err : Exn) : string :=
  "Failed to fetch options: " ++ message err
  ++ ". Please check your network or API key configuration.".

Definition no_options : JsValue := JsArray [JsString ""; JsString ""].

(** One run of the client: the requests it issued, the arguments of its
    calls of [setError] in order, and the value its promise resolves to. *)
Record ClientRun : Type := {
  issued : list Request;
  setError_calls : list string;
  returned : JsValue
}.

(** The catch handler. *)
Definition caught (sent : list Request) (err : Exn) : ClientRun :=
  {| issued := sent;
     setError_calls := [""; catch_message err];
     returned := no_options |}.

(** [fetchOptionsFromAI(category)] against a network that answers a
    request with [network req]. *)
Definition fetchOptionsFromAI `{Environment}
    (category : string) (network : Request -> FetchOutcome) : ClientRun :=
  match fetchOptionsFromAI_request category with
  | inl err => caught [] err
  | inr req =>
      match fetchOptionsFromAI_response (network req) with
      | inl err => caught [req] err
      | inr options =>
          {| issued := [req]; setError_calls := [""]; returned := options |}
      end
  end.

(** ** The component's state *)

(** An item of [history]. *)
Record Question : Type := {
  category : string;
  question_optionA : string;
  question_optionB : string
}.

(** The seven [useState] cells of [App]. *)
Record App : Type := {
  selectedCategory : string;
  optionA : string;
  optionB : string;
  isLoading : bool;
  error : string;
  history : list Question;
  historyIndex : Z
}.

Definition setSelectedCategory (c : string) (a : App) : App :=
  {| selectedCategory := c; optionA := optionA a; optionB := optionB a;
     isLoading := isLoading a; error := error a;
     history := history a; historyIndex := historyIndex a |}.

Definition setOptionA (x : string) (a : App) : App :=
  {| selectedCategory := selectedCategory a; optionA := x; optionB := optionB a;
     isLoading := isLoading a; error := error a;
     history := history a; historyIndex := historyIndex a |}.

Definition setOptionB (x : string) (a : App) : App :=
  {| selectedCategory := selectedCategory a; optionA := optionA a; optionB := x;
     isLoading := isLoading a; error := error a;
     history := history a; historyIndex := historyIndex a |}.

Definition setIsLoading (b : bool) (a : App) : App :=
  {| selectedCategory := selectedCategory a; optionA := optionA a; optionB := optionB a;
     isLoading := b; error := error a;
     history := history a; historyIndex := historyIndex a |}.

Definition setError (msg : string) (a : App) : App :=
  {| selectedCategory := selectedCategory a; optionA := optionA a; optionB := optionB a;
     isLoading := isLoading a; error := msg;
     history := history a; historyIndex := historyIndex a |}.

(** The two setters that the program calls with an updater function. *)
Definition setHistory (f : list Question -> list Question) (a : App) : App :=
  {| selectedCategory := selectedCategory a; optionA := optionA a; optionB := optionB a;
     isLoading := isLoading a; error := error a;
     history := f (history a); historyIndex := historyIndex a |}.

Definition setHistoryIndex (f : Z -> Z) (a : App) : App :=
  {| selectedCategory := selectedCategory a; optionA := optionA a; optionB := optionB a;
     isLoading := isLoading a; error := error a;
     history := history a; historyIndex := f (historyIndex a) |}.

(** The labels of the category buttons. *)
Definition categories : list string :=
  [ "Everyday Life"; "Superpowers"; "Travel & Adventure"; "Food & Drink";
    "Past or Future"; "Silly Scenarios"; "Animals"; "Personal Quirks";
    "Relationships" ].

Definition initial : App :=
  {| selectedCategory := "Everyday Life"; optionA := ""; optionB := "";
     isLoading := false; error := "";
     history := []; historyIndex := -1 |}.

(** ** Arrays indexed by a number *)

(** [xs[i]]: [undefined] when [i] is negative or past the end. *)
Definition at_index {A : Type} (xs : list A) (i : Z) : option A :=
  if i <? 0 then None else nth_error xs (Z.to_nat i).

(** [xs.slice(0, e)]: a negative [e] counts from the end, and the bound is
    clamped to the array. *)
Definition slice_to {A : Type} (xs : list A) (e : Z) : list A :=
  let len := Z.of_nat (List.length xs) in
  let k := if e <? 0 then Z.max (len + e) 0 else Z.min e len in
  firstn (Z.to_nat k) xs.

(** ** handleGenerateNew *)

(** What [handleGenerateNew] is called with: nothing, a boolean (the
    effect passes [historyIndex === -1]), or the click event that React
    passes to an [onClick] handler. *)
Inductive Arg : Type :=
| NoArg
| BoolArg (b : bool)
| ClickEvent.

(** The parameter [initialLoad = false] as the conditional operator reads
    it: the default replaces a missing argument only, and an event object
    is truthy. *)
Definition initialLoad (arg : Arg) : bool :=
  match arg with
  | NoArg => false
  | BoolArg b => b
  | ClickEvent => true
  end.

(** A call of [handleGenerateNew]: its argument and the two state values
    its closure captured at the render that created it. *)
Record Call : Type := {
  call_arg : Arg;
  call_selectedCategory : string;
  call_historyIndex : Z
}.

Definition nonempty (s : string) : bool := negb (String.eqb s "").

(** [const [newOptionA, newOptionB] = newOptions].  The promise of
    [fetchOptionsFromAI] resolves to an array of two strings on every path
    (lemma [resume_client_shape]); the two elements are read as strings. *)
Definition destructure (newOptions : JsValue) : string * string :=
  match element newOptions 0, element newOptions 1 with
  | JsString a, JsString b => (a, b)
  | _, _ => ("", "")
  end.

(** The part of [handleGenerateNew] that runs once the awaited promise has
    resolved.  [selectedCategory] and [historyIndex] are the closure's;
    the updaters of [setHistory] and [setHistoryIndex] receive the state
    of the moment. *)
Definition handleGenerateNew_resume (c : Call) (newOptions : JsValue) (a : App) : App :=
  let '(newOptionA, newOptionB) := destructure newOptions in
  let a1 :=
    if nonempty newOptionA || nonempty newOptionB then
      let newHistoryItem :=
        {| category := call_selectedCategory c;
           question_optionA := newOptionA;
           question_optionB := newOptionB |} in
      let a' :=
        setHistory (fun prevHistory =>
          let updatedHistory :=
            if initialLoad (call_arg c) then []
            else slice_to prevHistory (call_historyIndex c + 1) in
          (updatedHistory ++ [newHistoryItem])%list) a in
      setHistoryIndex (fun prevIndex =>
        if initialLoad (call_arg c) then 0 else prevIndex + 1) a'
    else
      setOptionB "" (setOptionA "" a) in
  setIsLoading false (setOptionB newOptionB (setOptionA newOptionA a1)).

(** Whether that part replaced [history] and [historyIndex]. *)
Definition recorded (newOptions : JsValue) : bool :=
  let '(newOptionA, newOptionB) := destructure newOptions in
  nonempty newOptionA || nonempty newOptionB.

(** ** handlePrevious *)

(** Reading [prevQuestion.optionA] throws when [history[newIndex]] is
    [undefined]; no setter has been called by then. *)
Definition handlePrevious `{Environment} (a : App) : Try App :=
  if 0 <? historyIndex a then
    let newIndex := historyIndex a - 1 in
    match at_index (history a) newIndex with
    | None => throw (nullish_read JsUndefined "optionA")
    | Some prevQuestion =>
        ret (setHistoryIndex (fun _ => newIndex)
              (setSelectedCategory (category prevQuestion)
                (setOptionB (question_optionB prevQuestion)
                  (setOptionA (question_optionA prevQuestion) a))))
    end
  else ret a.

(** ** The component as a transition system

    The state of one mounted [App]: the committed [useState] cells, the
    calls of [handleGenerateNew] suspended at [await] (oldest first), and
    two logs that the program itself does not read: every request handed
    to [fetch], and every call of [handleGenerateNew]. *)
Record System : Type := {
  app : App;
  inflight : list Call;
  requests : list Request;
  generations : list Call
}.

Definition with_app (a : App) (s : System) : System :=
  {| app := a; inflight := inflight s;
     requests := requests s; generations := generations s |}.

Definition without {A : Type} (k : nat) (xs : list A) : list A :=
  (firstn k xs ++ skipn (S k) xs)%list.

(** A call of [handleGenerateNew(arg)] from the current render, up to the
    point where it suspends.  [setIsLoading(true)] and the [setError('')]
    that opens [fetchOptionsFromAI] run at once.  When the key is missing
    the try block throws before [fetch]: the catch handler runs in the
    same turn, the promise is already settled, and the rest of
    [handleGenerateNew] follows before any other event. *)
Definition handleGenerateNew `{Environment} (arg : Arg) (s : System) : System :=
  let a := app s in
  let c := {| call_arg := arg;
              call_selectedCategory := selectedCategory a;
              call_historyIndex := historyIndex a |} in
  let a1 := setError "" (setIsLoading true a) in
  match fetchOptionsFromAI_request (selectedCategory a) with
  | inl err =>
      {| app := handleGenerateNew_resume c no_options (setError (catch_message err) a1);
         inflight := inflight s;
         requests := requests s;
         generations := (generations s ++ [c])%list |}
  | inr req =>
      {| app := a1;
         inflight := (inflight s ++ [c])%list;
         requests := (requests s ++ [req])%list;
         generations := (generations s ++ [c])%list |}
  end.

(** The body of the effect, run against the render it belongs to. *)
Definition useEffect `{Environment} (s : System) : System :=
  let a := app s in
  let currentQuestion := at_index (history a) (historyIndex a) in
  let stale :=
    match currentQuestion with
    | None => true
    | Some q => negb (String.eqb (category q) (selectedCategory a))
    end in
  if stale then handleGenerateNew (BoolArg (historyIndex a =? -1)) s else s.

(** The first render: the effect runs once after mounting, as in a
    production build ([React.StrictMode] repeats effects in development
    only). *)
Definition mount `{Environment} : System :=
  useEffect {| app := initial; inflight := []; requests := []; generations := [] |}.

Inductive Event : Type :=
| SelectCategory (c : string)
| ClickNext
| ClickPrevious
| Settle (k : nat) (o : FetchOutcome).

(** A click on a category button.  Setting a state cell to the value it
    holds renders nothing; otherwise the effect runs, [selectedCategory]
    being one of its dependencies.  The button is never disabled. *)
Definition selectCategory `{Environment} (c : string) (s : System) : System :=
  if String.eqb c (selectedCategory (app s)) then s
  else useEffect (with_app (setSelectedCategory c (app s)) s).

(** A click on the Next Question button, which is disabled while
    [isLoading]; [onClick={handleGenerateNew}] hands the handler the click
    event.  The cells it sets at once are no dependency of the effect. *)
Definition requestNext `{Environment} (s : System) : System :=
  if isLoading (app s) then s else handleGenerateNew ClickEvent s.

(** A click on the Previous Question button, which is disabled while
    [isLoading || historyIndex <= 0].  A handler that throws has set
    nothing; otherwise [historyIndex] changed and the effect runs. *)
Definition requestPrevious `{Environment} (s : System) : System :=
  if isLoading (app s) || (historyIndex (app s) <=? 0) then s
  else
    match handlePrevious (app s) with
    | inl _ => s
    | inr a' => useEffect (with_app a' s)
    end.

(** The rest of [fetchOptionsFromAI] once [fetch] has settled with [o]:
    the state after the catch handler, if it ran, and the value the
    promise resolves to. *)
Definition fetchOptionsFromAI_resume `{Environment} (o : FetchOutcome) (a : App) : App * JsValue :=
  match fetchOptionsFromAI_response o with
  | inl err => (setError (catch_message err) a, no_options)
  | inr options => (a, options)
  end.

(** The request of the [k]-th suspended call settles with [o]: the rest of
    [fetchOptionsFromAI] runs, then the rest of [handleGenerateNew], in
    one batch.  The effect runs again when [history] and [historyIndex]
    were replaced, and only then. *)
Definition settle `{Environment} (k : nat) (o : FetchOutcome) (s : System) : System :=
  match nth_error (inflight s) k with
  | None => s
  | Some c =>
      let '(a0, newOptions) := fetchOptionsFromAI_resume o (app s) in
      let s' :=
        {| app := handleGenerateNew_resume c newOptions a0;
           inflight := without k (inflight s);
           requests := requests s;
           generations := generations s |} in
      if recorded newOptions then useEffect s' else s'
  end.

Definition step `{Environment} (s : System) (e : Event) : System :=
  match e with
  | SelectCategory c => selectCategory c s
  | ClickNext => requestNext s
  | ClickPrevious => requestPrevious s
  | Settle k o => settle k o s
  end.

Definition run `{Environment} (s : System) (es : list Event) : System :=
  fold_left step es s.

(** ** Predicates of the data model *)

(** [cursor] is -1 or an index into [history]. *)
Definition cursor_valid (a : App) : Prop :=
  historyIndex a = -1 \/ 0 <= historyIndex a < Z.of_nat (List.length (history a)).

(** The credential is absent: [undefined] or empty. *)
Definition credential_absent `{Environment} : Prop :=
  apiKey = None \/ apiKey = Some "".

Definition credential_present `{Environment} : Prop :=
  exists key, apiKey = Some key /\ key <> "".

(** The text of the first part of the first candidate of a response that
    arrived with a success status, when the envelope has one. *)
Definition payload `{Environment} (o : FetchOutcome) : option JsValue :=
  match o with
  | Rejected _ => None
  | Resolved r =>
      if ok r then
        match json r with
        | inl _ => None
        | inr result =>
            match envelope_nonempty result with
            | inr true =>
                match first_part_text result with
                | inr text => Some text
                | inl _ => None
                end
            | _ => None
            end
        end
      else None
  end.

(** The client accepts the response: its promise resolves to what the
    service sent, and the catch handler did not run. *)
Definition accepts `{Environment} (o : FetchOutcome) : Prop :=
  exists options, fetchOptionsFromAI_response o = inr options.

(** The message the client left in [error] at the end of a run. *)
Definition client_error (run : ClientRun) : string :=
  last (setError_calls run) "".

(** The try block as a whole: it returns [options] or throws. *)
Definition try_block `{Environment}
    (category : string) (network : Request -> FetchOutcome) : Try JsValue :=
  req <- fetchOptionsFromAI_request category ;;
  fetchOptionsFromAI_response (network req).

(** ** A concrete environment for the examples

    Its [JSON.parse] reads what the service is asked for, an array of
    string literals without escapes or blanks, as the engine's does, and
    rejects every other text. *)

Definition quote : Ascii.ascii := Ascii.ascii_of_nat 34.
Definition backslash : Ascii.ascii := Ascii.ascii_of_nat 92.

Definition syntax_error : Exn := mkExn "Unexpected token in JSON".

(** The literal that ends at the next quote, and the text after it. *)
Fixpoint read_literal (s : string) : option (string * string) :=
  match s with
  | EmptyString => None
  | String ch rest =>
      if Ascii.eqb ch quote then Some (EmptyString, rest)
      else if Ascii.eqb ch backslash then None
      else
        match read_literal rest with
        | Some (lit, after) => Some (String ch lit, after)
        | None => None
        end
  end.

(** The elements of an array, from the first character of an element. *)
Fixpoint read_elements (fuel : nat) (s : string) : option (list JsValue) :=
  match fuel with
  | O => None
  | S fuel' =>
      match s with
      | String ch rest =>
          if Ascii.eqb ch quote then
            match read_literal rest with
            | Some (lit, String sep after) =>
                if Ascii.eqb sep "]"%char then
                  match after with
                  | EmptyString => Some [JsString lit]
                  | _ => None
                  end
                else if Ascii.eqb sep ","%char then
                  match read_elements fuel' after with
                  | Some more => Some (JsString lit :: more)
                  | None => None
                  end
                else None
            | _ => None
            end
          else None
      | EmptyString => None
      end
  end.

Definition parse_string_array (v : JsValue) : Try JsValue :=
  match v with
  | JsString (String first rest) =>
      if Ascii.eqb first "["%char then
        if String.eqb rest "]" then ret (JsArray [])
        else
          match read_elements (String.length rest) rest with
          | Some elems => ret (JsArray elems)
          | None => throw syntax_error
          end
      else throw syntax_error
  | _ => throw syntax_error
  end.

Definition browser (key : option string) : Environment :=
  {| apiKey := key;
     JSON_parse := parse_string_array;
     JSON_stringify := fun _ => "{}";
     coerced_gt_zero := fun _ => ret false;
     nullish_read := fun _ name =>
       mkExn ("Cannot read properties of undefined (reading '" ++ name ++ "')") |}.

Definition literal (s : string) : string :=
  String quote s ++ String quote EmptyString.

(** The text of a JSON array of string literals. *)
Fixpoint array_text_from (xs : list string) : string :=
  match xs with
  | [] => "]"
  | [x] => literal x ++ "]"
  | x :: rest => literal x ++ "," ++ array_text_from rest
  end.

Definition array_text (xs : list string) : string := "[" ++ array_text_from xs.

(** The body of a successful response whose first candidate holds [text]. *)
Definition envelope (text : string) : JsValue :=
  JsObject [("candidates",
    JsArray [JsObject [("content",
      JsObject [("parts", JsArray [JsObject [("text", JsString text)]]);
                ("role", JsString "model")])]])].

(** A response with a success status and a body that is JSON. *)
Definition answered (body : JsValue) : FetchOutcome :=
  Resolved {| ok := true; status := 200; json := inr body |}.

Definition reply (xs : list string) : FetchOutcome :=
  answered (envelope (array_text xs)).

(** A body whose candidate list is empty. *)
Definition no_candidates : JsValue := JsObject [("candidates", JsArray [])].

Definition offline : FetchOutcome := Rejected (mkExn "Failed to fetch").

Definition idle : System :=
  {| app := initial; inflight := []; requests := []; generations := [] |}.

(** The one suspended call's request settles right after the call was
    made, with no other event in between: a whole generation. *)
Definition generation `{Environment} (arg : Arg) (o : FetchOutcome) (s : System) : System :=
  settle (List.length (inflight s)) o (handleGenerateNew arg s).

(** The payload of [o] decodes to [v]. *)
Definition decodes_to `{Environment} (o : FetchOutcome) (v : JsValue) : Prop :=
  exists text, payload o = Some text /\ JSON_parse text = inr v.

Definition two_string_array (v : JsValue) : Prop :=
  exists a b, v = JsArray [JsString a; JsString b].

Definition two_nonempty_string_array (v : JsValue) : Prop :=
  exists a b, v = JsArray [JsString a; JsString b] /\ a <> "" /\ b <> "".

(** The generation that [o] would settle fails: the client hands the
    controller two empty strings, after an error or without one. *)
Definition fails `{Environment} (s : System) (o : FetchOutcome) : Prop :=
  returned (fetchOptionsFromAI (selectedCategory (app s)) (fun _ => o)) = no_options.

(** The two resting shapes of a session: a pair on display and no error,
    or an error and no pair. *)
Definition Idle (a : App) : Prop :=
  isLoading a = false /\ error a = "" /\ (optionA a <> "" \/ optionB a <> "").

Definition Errored (a : App) : Prop :=
  isLoading a = false /\ error a <> "" /\ optionA a = "" /\ optionB a = "".

(** At most one call is suspended, it was made from the render on
    display, and [isLoading] says so. *)
Definition single_flight (s : System) : Prop :=
  inflight s = []
  \/ exists c, inflight s = [c]
               /\ call_historyIndex c = historyIndex (app s)
               /\ isLoading (app s) = true.

(** An event that keeps to one request at a time: no category is selected
    while a call is suspended. *)
Definition gated (s : System) (e : Event) : Prop :=
  match e with
  | SelectCategory _ => inflight s = []
  | _ => True
  end.

Fixpoint gated_run `{Environment} (s : System) (es : list Event) : Prop :=
  match es with
  | [] => True
  | e :: rest => gated s e /\ gated_run (step s e) rest
  end.

(** ** Sessions for the examples *)

Definition configured : Environment := browser (Some "test-key").
Definition unconfigured : Environment := browser None.

(** The first load fails for want of a network. *)
Definition after_failed_load : System :=
  @run configured (@mount configured) [Settle 0 offline].

(** The first load, then a change of category: two entries, cursor 1. *)
Definition two_rounds : System :=
  @run configured (@mount configured)
    [ Settle 0 (reply ["Tea"; "Coffee"]);
      SelectCategory "Animals";
      Settle 0 (reply ["Cats"; "Dogs"]) ].

(** One change of category more: three entries, cursor 2. *)
Definition three_rounds : System :=
  @run configured two_rounds
    [ SelectCategory "Superpowers";
      Settle 0 (reply ["Fly"; "Teleport"]) ].

(** After the first load two categories are selected in a row while the
    request for the first of them is still outstanding; the two requests
    then settle in the order they were sent. *)
Definition overlapping : list Event :=
  [ Settle 0 (reply ["Tea"; "Coffee"]);
    SelectCategory "Animals";
    SelectCategory "Superpowers";
    Settle 0 (reply ["Cats"; "Dogs"]);
    Settle 0 (reply ["Fly"; "Teleport"]) ].

(** ** What the component renders

    The options area shows the spinner while [isLoading], else the error
    if there is one, else the two panels, each with its placeholder when
    its option is empty. *)
Inductive Display : Type :=
| Spinner
| ErrorText (msg : string)
| Panels (first second : string).

Definition placeholderA : string := "Select a category and click 'Next Question'!".
Definition placeholderB : string := "Your options will appear here.".

Definition display (a : App) : Display :=
  if isLoading a then Spinner
  else if nonempty (error a) then ErrorText (error a)
  else Panels (if nonempty (optionA a) then optionA a else placeholderA)
              (if nonempty (optionB a) then optionB a else placeholderB).

(** The [disabled] attribute of the Previous Question button. *)
Definition previousDisabled (a : App) : bool :=
  isLoading a || (historyIndex a <=? 0).

(** The [disabled] attribute of the Next Question button. *)
Definition nextDisabled (a : App) : bool := isLoading a.

(** ** More predicates on sessions *)

(** An entry with something to show. *)
Definition entry_nonempty (q : Question) : Prop :=
  question_optionA q <> "" \/ question_optionB q <> "".

(** The cursor is at or past the end of [history]. *)
Definition cursor_past_end (a : App) : Prop :=
  Z.of_nat (List.length (history a)) <= historyIndex a.

(** Every request went out for the category selected when its call of
    [handleGenerateNew] was made, one request a call. *)
Definition one_request_each (s : System) : Prop :=
  map prompt_category (requests s) = map call_selectedCategory (generations s).

(** No request was ever sent and nothing was ever recorded. *)
Definition nothing_sent (s : System) : Prop :=
  requests s = [] /\ inflight s = []
  /\ history (app s) = [] /\ historyIndex (app s) = -1.

(** A category click comes from one of the nine buttons. *)
Definition from_buttons (e : Event) : Prop :=
  match e with
  | SelectCategory c => In c categories
  | _ => True
  end.

(** The selected category, those recorded and those captured by the
    suspended calls are all labels of buttons. *)
Definition labelled (s : System) : Prop :=
  In (selectedCategory (app s)) categories
  /\ Forall (fun q => In (category q) categories) (history (app s))
  /\ Forall (fun c => In (call_selectedCategory c) categories) (inflight s).

(** ** More sessions for the examples *)


(** The session after the requests of [overlapping] have settled. *)
Definition past_end : System :=
  @run configured (@mount configured) overlapping.

(** Two entries, then a change of category that finds no network. *)
Definition errored_with_history : System :=
  @run configured two_rounds [SelectCategory "Superpowers"; Settle 0 offline].

(** A service that is down. *)
Definition unavailable : Response :=
  {| ok := false; status := 503; json := inr (JsObject []) |}.

(** A session of clicks and answers that keeps to one request at a time. *)
Definition one_at_a_time : list Event :=
  [ Settle 0 (reply ["Tea"; "Coffee"]);
    SelectCategory "Animals";
    Settle 0 (reply ["Cats"; "Dogs"]);
    ClickPrevious;
    ClickNext;
    Settle 0 offline;
    SelectCategory "Relationships";
    Settle 0 (reply ["Text"; "Call"]) ].

(** ** The envelope, said without the program's functions

    [result] carries [text]: reading [candidates] off [result] gives a
    truthy value whose [length] is greater than zero; its element 0 has a
    truthy [content], whose [parts] is truthy with a [length] greater than
    zero; and [text] is the [text] of element 0 of [parts].  No read on
    the way meets [null] or [undefined].  An array qualifies when it is
    not empty, and so does an object that has a [length] and a property
    [0]. *)
Definition carries `{Environment} (result text : JsValue) : Prop :=
  exists candidates first content parts part n m,
    get result (Named "candidates") = inr candidates
    /\ truthy candidates = true
    /\ get candidates (Named "length") = inr n /\ gt_zero n = inr true
    /\ get candidates (Index 0) = inr first
    /\ get first (Named "content") = inr content
    /\ truthy content = true
    /\ get content (Named "parts") = inr parts
    /\ truthy parts = true
    /\ get parts (Named "length") = inr m /\ gt_zero m = inr true
    /\ get parts (Index 0) = inr part
    /\ get part (Named "text") = inr text.

(** [o] is a response with a success status whose body is JSON and
    carries [text]. *)
Definition delivers `{Environment} (o : FetchOutcome) (text : JsValue) : Prop :=
  exists r result,
    o = Resolved r /\ ok r = true /\ json r = inr result /\ carries result text.

(** ** Sessions with requests that overlap *)

(** The session of [overlapping] before its last request settles: the
    cursor is 1 over two entries, Superpowers is selected, and two calls
    for it are suspended, the older made when the cursor was 0. *)
Definition one_to_settle : System :=
  @run configured (@mount configured)
    [ Settle 0 (reply ["Tea"; "Coffee"]);
      SelectCategory "Animals";
      SelectCategory "Superpowers";
      Settle 0 (reply ["Cats"; "Dogs"]) ].


(** * Properties of the generation client *)

Section Client.

Context {E : Environment}.

Lemma two_strings_iff (v : JsValue) :
  two_strings v = true <-> two_string_array v.
Proof.
  unfold two_string_array. split.
  - destruct v as [ | | | | | elems | ]; try discriminate.
    destruct elems as [ | x [ | y [ | z rest ] ] ]; try discriminate.
    unfold two_strings; simpl.
    destruct x; try discriminate; destruct y; try discriminate.
    intros _. eauto.
  - intros (a & b & ->). reflexivity.
Qed.

Lemma validate_returns (result options : JsValue) :
  validate result = inr options <->
  envelope_nonempty result = inr true /\
  (exists text, first_part_text result = inr text /\ JSON_parse text = inr options) /\
  two_strings options = true.
Proof.
  unfold validate, bind. split.
  - destruct (envelope_nonempty result) as [ e | [ | ] ]; try discriminate.
    destruct (first_part_text result) as [ e | text ]; try discriminate.
    destruct (JSON_parse text) as [ e | v ] eqn:Hparse; try discriminate.
    destruct (two_strings v) eqn:Hv; try discriminate.
    unfold ret. intros [= <-]. eauto.
  - intros (-> & (text & -> & ->) & ->). reflexivity.
Qed.

Lemma response_returns (o : FetchOutcome) (options : JsValue) :
  fetchOptionsFromAI_response o = inr options <->
  decodes_to o options /\ two_strings options = true.
Proof.
  unfold decodes_to, payload, fetchOptionsFromAI_response.
  destruct o as [ e | r ].
  - split; [ discriminate | intros ((text & [=] & _) & _) ].
  - destruct (ok r); simpl.
    + destruct (json r) as [ e | result ]; simpl.
      * split; [ discriminate | intros ((text & [=] & _) & _) ].
      * rewrite validate_returns. split.
        -- intros (-> & (text & -> & Hp) & Hv). eauto.
        -- intros ((text & Htext & Hp) & Hv).
           destruct (envelope_nonempty result) as [ e | [ | ] ]; try discriminate.
           destruct (first_part_text result) as [ e | t ]; try discriminate.
           injection Htext as ->. eauto.
    + split.
      * unfold bind. destruct (json r); discriminate.
      * intros ((text & [=] & _) & _).
Qed.

Lemma response_shape (o : FetchOutcome) (options : JsValue) :
  fetchOptionsFromAI_response o = inr options -> two_string_array options.
Proof.
  intros H. apply response_returns in H. apply two_strings_iff, H.
Qed.

(** What the catch handler leaves behind. *)
Lemma try_block_thrown (category0 : string) (network : Request -> FetchOutcome) (err : Exn) :
  try_block category0 network = inl err ->
  returned (fetchOptionsFromAI category0 network) = no_options
  /\ setError_calls (fetchOptionsFromAI category0 network) = [""; catch_message err].
Proof.
  unfold fetchOptionsFromAI, try_block, bind.
  destruct (fetchOptionsFromAI_request category0) as [ e | req ].
  - intros [= <-]. split; reflexivity.
  - destruct (fetchOptionsFromAI_response (network req)) as [ e | options ].
    + intros [= <-]. split; reflexivity.
    + discriminate.
Qed.

(** C9.  On every path [fetchOptionsFromAI] settles with an array of
    exactly two strings and nothing is thrown past it: when the try block
    throws, whatever the cause (missing key, rejected fetch, error status,
    unreadable body, malformed envelope, parse error, unexpected format),
    the catch handler reports the message and the result is the array of
    two empty strings; when it returns, the result is the validated array
    and no error is set. *)
Theorem fetchOptionsFromAI_total (category0 : string) (network : Request -> FetchOutcome) :
  two_string_array (returned (fetchOptionsFromAI category0 network))
  /\ (forall err, try_block category0 network = inl err ->
        returned (fetchOptionsFromAI category0 network) = no_options
        /\ setError_calls (fetchOptionsFromAI category0 network) = [""; catch_message err])
  /\ (forall options, try_block category0 network = inr options ->
        returned (fetchOptionsFromAI category0 network) = options
        /\ setError_calls (fetchOptionsFromAI category0 network) = [""]).
Proof.
  unfold fetchOptionsFromAI, try_block, bind.
  destruct (fetchOptionsFromAI_request category0) as [ e | req ].
  - split; [ exists "", ""; reflexivity | split ].
    + intros err [= <-]. split; reflexivity.
    + intros options [=].
  - destruct (fetchOptionsFromAI_response (network req)) as [ e | options ] eqn:Hres.
    + split; [ exists "", ""; reflexivity | split ].
      * intros err [= <-]. split; reflexivity.
      * intros options [=].
    + split; [ apply (response_shape _ _ Hres) | split ].
      * intros err [=].
      * intros options' [= <-]. split; reflexivity.
Qed.

(** The envelope test and the read of the text, against [carries]. *)
Lemma carries_iff (result text : JsValue) :
  carries result text <->
  envelope_nonempty result = inr true /\ first_part_text result = inr text.
Proof.
  unfold carries, envelope_nonempty, first_part_text, bind. split.
  - intros (candidates & first & content & parts & part & n & m
            & H1 & H2 & H3 & H4 & H5 & H6 & H7 & H8 & H9 & H10 & H11 & H12 & H13).
    rewrite H1, H2. cbn [negb]. rewrite H3, H4. cbn [negb].
    rewrite H5, H6, H7. cbn [negb]. rewrite H8, H9. cbn [negb].
    rewrite H10, H12, H13. split; [ exact H11 | reflexivity ].
  - destruct (get result (Named "candidates")) as [ e | candidates ] eqn:H1;
      [ intros [[=] _] | ].
    destruct (truthy candidates) eqn:H2; cbn [negb]; [ | intros [[=] _] ].
    destruct (get candidates (Named "length")) as [ e | n ] eqn:H3;
      [ intros [[=] _] | ].
    destruct (gt_zero n) as [ e | [ | ] ] eqn:H4; cbn [negb];
      [ intros [[=] _] | | intros [[=] _] ].
    destruct (get candidates (Index 0)) as [ e | first ] eqn:H5;
      [ intros [[=] _] | ].
    destruct (get first (Named "content")) as [ e | content ] eqn:H6;
      [ intros [[=] _] | ].
    destruct (truthy content) eqn:H7; cbn [negb]; [ | intros [[=] _] ].
    destruct (get content (Named "parts")) as [ e | parts ] eqn:H8;
      [ intros [[=] _] | ].
    destruct (truthy parts) eqn:H9; cbn [negb]; [ | intros [[=] _] ].
    destruct (get parts (Named "length")) as [ e | m ] eqn:H10;
      [ intros [[=] _] | ].
    destruct (get parts (Index 0)) as [ e | part ] eqn:H12;
      [ intros [_ [=]] | ].
    intros [H11 H13].
    exists candidates, first, content, parts, part, n, m.
    repeat match goal with |- _ /\ _ => split end; auto.
Qed.

Lemma payload_delivers (o : FetchOutcome) (text : JsValue) :
  payload o = Some text <-> delivers o text.
Proof.
  unfold payload, delivers. split.
  - destruct o as [ e | r ]; [ discriminate | ].
    destruct (ok r) eqn:Hok; [ | discriminate ].
    destruct (json r) as [ e | result ] eqn:Hjson; [ discriminate | ].
    destruct (envelope_nonempty result) as [ e | [ | ] ] eqn:Henv; try discriminate.
    destruct (first_part_text result) as [ e | t ] eqn:Htext; [ discriminate | ].
    intros [= <-]. exists r, result. repeat split; auto.
    apply carries_iff. split; assumption.
  - intros (r & result & -> & Hok & Hjson & Hcarries).
    apply carries_iff in Hcarries. destruct Hcarries as (Henv & Htext).
    rewrite Hok, Hjson, Henv, Htext. reflexivity.
Qed.

Lemma decodes_delivered (o : FetchOutcome) (v : JsValue) :
  decodes_to o v <-> exists text, delivers o text /\ JSON_parse text = inr v.
Proof.
  unfold decodes_to. split; intros (text & Htext & Hparse); exists text;
    (split; [ apply payload_delivers, Htext | exact Hparse ]).
Qed.

(** What the response part of the try block does with a text that was
    delivered. *)
Lemma delivered_response (o : FetchOutcome) (text : JsValue) :
  delivers o text ->
  fetchOptionsFromAI_response o =
    (options <- JSON_parse text ;;
     if two_strings options then ret options else throw unexpected_format).
Proof.
  intros (r & result & -> & Hok & Hjson & Hcarries).
  apply carries_iff in Hcarries. destruct Hcarries as (Henv & Htext).
  unfold fetchOptionsFromAI_response, validate, bind.
  rewrite Hok, Hjson, Henv, Htext. reflexivity.
Qed.

(** C2, as amended.  The client accepts a response exactly when it came
    with a success status and a JSON body, the body carries a text
    ([candidates] truthy with a length above zero, its element 0 with a
    truthy [content] whose [parts] is truthy with a length above zero,
    the text being that of element 0 of [parts]), and [JSON.parse] of that
    text gives an array of exactly two strings, empty strings included.
    A text that parses to anything else is refused as an unexpected
    format, a text that does not parse is refused with the parser's
    error, and a body whose [candidates] is falsy or an empty array is
    refused as empty or malformed.  Whatever is not accepted ends in the
    catch handler: a message that is not empty is passed to [setError]
    and two empty strings are returned.  The envelope the service
    documents carries the text of its first part. *)
Theorem response_accepted_iff_two_strings (o : FetchOutcome) :
  (forall options,
     fetchOptionsFromAI_response o = inr options <->
     (exists text, delivers o text /\ JSON_parse text = inr options)
     /\ two_string_array options)
  /\ (forall text v,
        delivers o text -> JSON_parse text = inr v -> ~ two_string_array v ->
        fetchOptionsFromAI_response o = inl unexpected_format)
  /\ (forall text err,
        delivers o text -> JSON_parse text = inl err ->
        fetchOptionsFromAI_response o = inl err)
  /\ (forall r result candidates,
        o = Resolved r -> ok r = true -> json r = inr result ->
        get result (Named "candidates") = inr candidates ->
        truthy candidates = false \/ candidates = JsArray [] ->
        fetchOptionsFromAI_response o = inl empty_or_malformed)
  /\ ((forall options, fetchOptionsFromAI_response o <> inr options) ->
      forall category0, exists err,
        setError_calls (fetchOptionsFromAI category0 (fun _ => o))
          = [""; catch_message err]
        /\ catch_message err <> ""
        /\ returned (fetchOptionsFromAI category0 (fun _ => o)) = no_options)
  /\ (forall text, carries (envelope text) (JsString text)).
Proof.
  repeat match goal with |- _ /\ _ => split end.
  - intros options.
    rewrite response_returns, two_strings_iff, decodes_delivered. reflexivity.
  - intros text v Hdelivered Hparse Hno.
    rewrite (delivered_response o text Hdelivered). unfold bind. rewrite Hparse.
    destruct (two_strings v) eqn:Hv; [ | reflexivity ].
    apply two_strings_iff in Hv. contradiction.
  - intros text err Hdelivered Hparse.
    rewrite (delivered_response o text Hdelivered). unfold bind. rewrite Hparse.
    reflexivity.
  - intros r result candidates -> Hok Hjson Hcandidates Hempty.
    unfold fetchOptionsFromAI_response, validate, envelope_nonempty, bind.
    rewrite Hok, Hjson. cbn [negb]. rewrite Hcandidates.
    destruct Hempty as [ -> | -> ]; reflexivity.
  - intros Hrefused category0. unfold fetchOptionsFromAI.
    destruct (fetchOptionsFromAI_request category0) as [ err | req ].
    + exists err. repeat split. discriminate.
    + destruct (fetchOptionsFromAI_response o) as [ err | options ] eqn:Hres.
      * exists err. repeat split. discriminate.
      * destruct (Hrefused options eq_refl).
  - intros text. unfold carries.
    exists (JsArray [JsObject [("content",
              JsObject [("parts", JsArray [JsObject [("text", JsString text)]]);
                        ("role", JsString "model")])]]).
    exists (JsObject [("content",
              JsObject [("parts", JsArray [JsObject [("text", JsString text)]]);
                        ("role", JsString "model")])]).
    exists (JsObject [("parts", JsArray [JsObject [("text", JsString text)]]);
                      ("role", JsString "model")]).
    exists (JsArray [JsObject [("text", JsString text)]]).
    exists (JsObject [("text", JsString text)]).
    exists (JsNumber 1), (JsNumber 1).
    repeat match goal with |- _ /\ _ => split end; reflexivity.
Qed.

Lemma length_append (s t : string) :
  String.length (s ++ t) = (String.length s + String.length t)%nat.
Proof.
  induction s as [ | ch s IH ]; simpl; [ reflexivity | rewrite IH; reflexivity ].
Qed.

Lemma append_cancel_left (p s t : string) : (p ++ s = p ++ t)%string -> s = t.
Proof.
  induction p as [ | ch p IH ]; simpl; [ auto | ].
  intros [= H]. apply IH, H.
Qed.

Lemma append_cancel_right (s t u : string) : (s ++ u = t ++ u)%string -> s = t.
Proof.
  revert t. induction s as [ | ch s IH ]; intros [ | ch' t ] H.
  - reflexivity.
  - apply (f_equal String.length) in H. simpl in H. rewrite length_append in H. lia.
  - apply (f_equal String.length) in H. simpl in H. rewrite length_append in H. lia.
  - simpl in H. injection H as -> H. f_equal. apply IH, H.
Qed.

(** The message the catch handler shows tells the caught errors apart. *)
Lemma catch_message_injective (e1 e2 : Exn) :
  catch_message e1 = catch_message e2 -> message e1 = message e2.
Proof.
  unfold catch_message. intros H.
  apply append_cancel_left in H. apply append_cancel_right in H. exact H.
Qed.

(** C8.  With the credential absent the try block throws the
    configuration error before [fetch] is reached: the client issues no
    request, passes to [setError] the text that names the missing key and
    settles with two empty strings; a call of [handleGenerateNew] then
    adds nothing to the requests sent, leaves nothing in flight and shows
    that text in [error], in place of the options, as the first load does
    at startup.  The text is the one of the source, not that of a failed
    request. *)
Theorem missing_credential_fails_before_fetch
    (category0 : string) (network : Request -> FetchOutcome) (arg : Arg) (s : System) :
  credential_absent ->
  issued (fetchOptionsFromAI category0 network) = []
  /\ setError_calls (fetchOptionsFromAI category0 network) =
       [""; "Failed to fetch options: GEMINI_API_KEY is not configured. Please set REACT_APP_GEMINI_API_KEY in Netlify environment variables.. Please check your network or API key configuration."]
  /\ client_error (fetchOptionsFromAI category0 network) = catch_message missing_key
  /\ returned (fetchOptionsFromAI category0 network) = no_options
  /\ requests (handleGenerateNew arg s) = requests s
  /\ inflight (handleGenerateNew arg s) = inflight s
  /\ error (app (handleGenerateNew arg s)) =
       "Failed to fetch options: GEMINI_API_KEY is not configured. Please set REACT_APP_GEMINI_API_KEY in Netlify environment variables.. Please check your network or API key configuration."
  /\ display (app (handleGenerateNew arg s)) =
       ErrorText "Failed to fetch options: GEMINI_API_KEY is not configured. Please set REACT_APP_GEMINI_API_KEY in Netlify environment variables.. Please check your network or API key configuration."
  /\ requests mount = []
  /\ error (app mount) =
       "Failed to fetch options: GEMINI_API_KEY is not configured. Please set REACT_APP_GEMINI_API_KEY in Netlify environment variables.. Please check your network or API key configuration."
  /\ (forall rejection,
        catch_message missing_key = catch_message rejection ->
        message rejection = "GEMINI_API_KEY is not configured. Please set REACT_APP_GEMINI_API_KEY in Netlify environment variables.").
Proof.
  intros Habsent.
  assert (Hreq : forall c, fetchOptionsFromAI_request c = inl missing_key).
  { intros c. unfold fetchOptionsFromAI_request.
    destruct Habsent as [ -> | -> ]; reflexivity. }
  unfold mount, useEffect. cbn [app initial history historyIndex at_index Z.ltb Z.compare].
  unfold fetchOptionsFromAI, handleGenerateNew. rewrite !Hreq.
  repeat match goal with |- _ /\ _ => split end; try reflexivity.
  intros rejection Hsame. symmetry. apply (catch_message_injective _ _ Hsame).
Qed.

End Client.

(** * Arrays *)

Lemma at_index_bounds {A : Type} (xs : list A) (i : Z) (x : A) :
  at_index xs i = Some x -> 0 <= i < Z.of_nat (List.length xs).
Proof.
  unfold at_index. destruct (i <? 0) eqn:Hneg; [ discriminate | ].
  intros Hnth. apply Z.ltb_ge in Hneg.
  assert (Hlt : (Z.to_nat i < List.length xs)%nat).
  { apply nth_error_Some. congruence. }
  lia.
Qed.

Lemma at_index_appended {A : Type} (xs : list A) (x : A) :
  at_index (xs ++ [x]) (Z.of_nat (List.length xs)) = Some x.
Proof.
  unfold at_index.
  destruct (Z.of_nat (List.length xs) <? 0) eqn:Hneg.
  - apply Z.ltb_lt in Hneg. lia.
  - rewrite Nat2Z.id, nth_error_app2, Nat.sub_diag by lia. reflexivity.
Qed.

Lemma slice_to_firstn {A : Type} (xs : list A) (e : Z) :
  0 <= e -> slice_to xs e = firstn (Z.to_nat e) xs.
Proof.
  intros He. unfold slice_to.
  destruct (e <? 0) eqn:Hneg; [ apply Z.ltb_lt in Hneg; lia | ].
  destruct (Z.le_gt_cases e (Z.of_nat (List.length xs))) as [ Hin | Hout ].
  - rewrite Z.min_l by lia. reflexivity.
  - rewrite Z.min_r by lia. rewrite Nat2Z.id.
    rewrite firstn_all. symmetry. apply firstn_all2. lia.
Qed.

Lemma slice_to_length {A : Type} (xs : list A) (e : Z) :
  0 <= e <= Z.of_nat (List.length xs) ->
  Z.of_nat (List.length (slice_to xs e)) = e.
Proof.
  intros He. rewrite slice_to_firstn by lia.
  rewrite length_firstn. lia.
Qed.

Lemma nth_error_last {A : Type} (xs : list A) (x : A) :
  nth_error (xs ++ [x]) (List.length xs) = Some x.
Proof.
  rewrite nth_error_app2, Nat.sub_diag by lia. reflexivity.
Qed.

(** * Properties of the session controller *)

Section Controller.

Context {E : Environment}.

Lemma destructure_pair (x y : string) :
  destructure (JsArray [JsString x; JsString y]) = (x, y).
Proof. reflexivity. Qed.

Lemma nonempty_true (x : string) : nonempty x = true <-> x <> "".
Proof.
  unfold nonempty. rewrite negb_true_iff. apply String.eqb_neq.
Qed.

Lemma nonempty_false (x : string) : nonempty x = false <-> x = "".
Proof.
  unfold nonempty. rewrite negb_false_iff. apply String.eqb_eq.
Qed.

Lemma recorded_pair (x y : string) :
  recorded (JsArray [JsString x; JsString y]) = true <-> x <> "" \/ y <> "".
Proof.
  unfold recorded. rewrite destructure_pair, orb_true_iff, !nonempty_true.
  reflexivity.
Qed.

(** A result that is not recorded is the array of two empty strings. *)
Lemma not_recorded (v : JsValue) :
  two_string_array v -> recorded v = false -> v = no_options.
Proof.
  intros (x & y & ->). unfold recorded. rewrite destructure_pair.
  rewrite orb_false_iff, !nonempty_false. intros [-> ->]. reflexivity.
Qed.

(** The rest of [handleGenerateNew] on a failed generation. *)
Lemma resume_no_options (c : Call) (a : App) :
  handleGenerateNew_resume c no_options a =
  {| selectedCategory := selectedCategory a; optionA := ""; optionB := "";
     isLoading := false; error := error a;
     history := history a; historyIndex := historyIndex a |}.
Proof. reflexivity. Qed.

(** The rest of [handleGenerateNew] on a successful one. *)
Lemma resume_recorded (c : Call) (x y : string) (a : App) :
  x <> "" \/ y <> "" ->
  handleGenerateNew_resume c (JsArray [JsString x; JsString y]) a =
  {| selectedCategory := selectedCategory a; optionA := x; optionB := y;
     isLoading := false; error := error a;
     history :=
       ((if initialLoad (call_arg c) then []
         else slice_to (history a) (call_historyIndex c + 1))
        ++ [{| category := call_selectedCategory c;
               question_optionA := x; question_optionB := y |}])%list;
     historyIndex := if initialLoad (call_arg c) then 0 else historyIndex a + 1 |}.
Proof.
  intros Hne. apply recorded_pair in Hne. unfold recorded in Hne.
  unfold handleGenerateNew_resume. rewrite destructure_pair in *.
  rewrite Hne. reflexivity.
Qed.

Lemma request_with_key (c : string) :
  credential_present ->
  exists req, fetchOptionsFromAI_request c = inr req.
Proof.
  intros (key & Hkey & Hne). unfold fetchOptionsFromAI_request. rewrite Hkey.
  apply String.eqb_neq in Hne. rewrite Hne. eauto.
Qed.

(** With a key, a call of [handleGenerateNew] suspends at [fetch]. *)
Lemma handleGenerateNew_suspends (arg : Arg) (s : System) :
  credential_present ->
  exists req,
    handleGenerateNew arg s =
    {| app := setError "" (setIsLoading true (app s));
       inflight := (inflight s ++ [{| call_arg := arg;
                      call_selectedCategory := selectedCategory (app s);
                      call_historyIndex := historyIndex (app s) |}])%list;
       requests := (requests s ++ [req])%list;
       generations := (generations s ++ [{| call_arg := arg;
                      call_selectedCategory := selectedCategory (app s);
                      call_historyIndex := historyIndex (app s) |}])%list |}.
Proof.
  intros Hkey.
  destruct (request_with_key (selectedCategory (app s)) Hkey) as (req & Hreq).
  exists req. unfold handleGenerateNew. rewrite Hreq. reflexivity.
Qed.

(** Whatever the key, a call of [handleGenerateNew] is logged once and
    leaves [selectedCategory], [history] and [historyIndex] as they are. *)
Lemma handleGenerateNew_frame (arg : Arg) (s : System) :
  generations (handleGenerateNew arg s) =
    (generations s ++ [{| call_arg := arg;
                          call_selectedCategory := selectedCategory (app s);
                          call_historyIndex := historyIndex (app s) |}])%list
  /\ selectedCategory (app (handleGenerateNew arg s)) = selectedCategory (app s)
  /\ history (app (handleGenerateNew arg s)) = history (app s)
  /\ historyIndex (app (handleGenerateNew arg s)) = historyIndex (app s).
Proof.
  unfold handleGenerateNew.
  destruct (fetchOptionsFromAI_request (selectedCategory (app s))); repeat split.
Qed.

Lemma useEffect_fresh (s : System) (q : Question) :
  at_index (history (app s)) (historyIndex (app s)) = Some q ->
  category q = selectedCategory (app s) ->
  useEffect s = s.
Proof.
  intros Hq Hcat. unfold useEffect. rewrite Hq, Hcat, String.eqb_refl. reflexivity.
Qed.

Lemma useEffect_stale (s : System) :
  (at_index (history (app s)) (historyIndex (app s)) = None
   \/ exists q, at_index (history (app s)) (historyIndex (app s)) = Some q
                /\ category q <> selectedCategory (app s)) ->
  useEffect s = handleGenerateNew (BoolArg (historyIndex (app s) =? -1)) s.
Proof.
  unfold useEffect. intros [ -> | (q & -> & Hne) ]; [ reflexivity | ].
  apply String.eqb_neq in Hne. rewrite Hne. reflexivity.
Qed.


(** Selecting another category while the entry at the cursor is absent or
    of another category calls [handleGenerateNew] once. *)
Lemma selectCategory_stale (s : System) (c : string) :
  c <> selectedCategory (app s) ->
  (at_index (history (app s)) (historyIndex (app s)) = None
   \/ exists q, at_index (history (app s)) (historyIndex (app s)) = Some q
                /\ category q <> c) ->
  generations (selectCategory c s) =
    (generations s ++ [{| call_arg := BoolArg (historyIndex (app s) =? -1);
                          call_selectedCategory := c;
                          call_historyIndex := historyIndex (app s) |}])%list.
Proof.
  intros Hother Hstale. unfold selectCategory.
  apply String.eqb_neq in Hother. rewrite Hother.
  rewrite useEffect_stale by exact Hstale.
  apply handleGenerateNew_frame.
Qed.

(** C3, as amended.  Selecting the category that is already selected
    renders nothing and triggers nothing, whatever the entry at the
    cursor.  Selecting another category [c] runs the effect once: when the
    entry at the cursor has category [c] no generation is triggered; when
    the entry is absent or has another category, [handleGenerateNew] is
    called exactly once, for [c], with [historyIndex === -1] as its
    argument.  Selecting the category of the entry at the cursor never
    triggers a generation. *)
Theorem selectCategory_trigger (s : System) (c : string) :
  (c = selectedCategory (app s) -> selectCategory c s = s)
  /\ (forall q,
        at_index (history (app s)) (historyIndex (app s)) = Some q ->
        category q = c ->
        generations (selectCategory c s) = generations s)
  /\ (c <> selectedCategory (app s) ->
      (at_index (history (app s)) (historyIndex (app s)) = None
       \/ exists q, at_index (history (app s)) (historyIndex (app s)) = Some q
                    /\ category q <> c) ->
      generations (selectCategory c s) =
        (generations s ++ [{| call_arg := BoolArg (historyIndex (app s) =? -1);
                              call_selectedCategory := c;
                              call_historyIndex := historyIndex (app s) |}])%list).
Proof.
  split; [ | split ].
  - intros ->. unfold selectCategory. rewrite String.eqb_refl. reflexivity.
  - intros q Hq Hcat. unfold selectCategory.
    destruct (String.eqb c (selectedCategory (app s))); [ reflexivity | ].
    rewrite (useEffect_fresh _ q); auto.
  - apply selectCategory_stale.
Qed.

(** A generation triggered by a category change, then settled with two
    strings of which one at least is not empty. *)
Lemma category_change_settled
    (s : System) (c : string) (o : FetchOutcome) (q : Question) (x y : string) :
  credential_present ->
  at_index (history (app s)) (historyIndex (app s)) = Some q ->
  category q <> c ->
  c <> selectedCategory (app s) ->
  fetchOptionsFromAI_response o = inr (JsArray [JsString x; JsString y]) ->
  x <> "" \/ y <> "" ->
  app (settle (List.length (inflight s)) o (selectCategory c s)) =
  {| selectedCategory := c; optionA := x; optionB := y;
     isLoading := false; error := "";
     history :=
       (firstn (Z.to_nat (historyIndex (app s) + 1)) (history (app s))
        ++ [{| category := c; question_optionA := x; question_optionB := y |}])%list;
     historyIndex := historyIndex (app s) + 1 |}.
Proof.
  intros Hkey Hq Hcat Hother Hres Hne.
  pose proof (at_index_bounds _ _ _ Hq) as Hin.
  unfold selectCategory. apply String.eqb_neq in Hother. rewrite Hother.
  rewrite useEffect_stale by (right; exists q; auto).
  destruct (handleGenerateNew_suspends
              (BoolArg (historyIndex (app (with_app (setSelectedCategory c (app s)) s)) =? -1))
              (with_app (setSelectedCategory c (app s)) s) Hkey) as (req & ->).
  unfold settle. cbn [inflight with_app]. rewrite nth_error_last.
  unfold fetchOptionsFromAI_resume. rewrite Hres.
  rewrite resume_recorded by exact Hne.
  apply recorded_pair in Hne. rewrite Hne.
  cbn [call_arg call_selectedCategory call_historyIndex app with_app
       setSelectedCategory setError setIsLoading
       selectedCategory history historyIndex error optionA optionB isLoading].
  replace (historyIndex (app s) =? -1) with false by (symmetry; apply Z.eqb_neq; lia).
  cbn [initialLoad].
  rewrite slice_to_firstn by lia.
  rewrite (useEffect_fresh _ {| category := c; question_optionA := x; question_optionB := y |}).
  - reflexivity.
  - cbn [app history historyIndex].
    replace (historyIndex (app s) + 1)
      with (Z.of_nat (List.length (firstn (Z.to_nat (historyIndex (app s) + 1)) (history (app s)))))
      at 2 by (rewrite length_firstn; lia).
    apply at_index_appended.
  - reflexivity.
Qed.

(** X20.  From a state whose cursor points at an entry, selecting a
    category other than that entry's (and other than the selected one)
    triggers a generation that is no initial load; when its request
    settles before any other event, with two strings of which one at
    least is not empty, [history] is its first [cursor + 1] entries
    followed by the new entry, and the cursor is the new last index.
    From cursor 2 in a history of length 3 the result has length 4 and
    cursor 3. *)
Theorem category_change_truncates_then_appends
    (s : System) (c : string) (o : FetchOutcome) (q : Question) (x y : string) :
  credential_present ->
  at_index (history (app s)) (historyIndex (app s)) = Some q ->
  category q <> c ->
  c <> selectedCategory (app s) ->
  fetchOptionsFromAI_response o = inr (JsArray [JsString x; JsString y]) ->
  x <> "" \/ y <> "" ->
  generations (selectCategory c s) =
    (generations s ++ [{| call_arg := BoolArg false;
                          call_selectedCategory := c;
                          call_historyIndex := historyIndex (app s) |}])%list
  /\ history (app (settle (List.length (inflight s)) o (selectCategory c s))) =
       (firstn (Z.to_nat (historyIndex (app s) + 1)) (history (app s))
        ++ [{| category := c; question_optionA := x; question_optionB := y |}])%list
  /\ Z.of_nat (List.length (firstn (Z.to_nat (historyIndex (app s) + 1)) (history (app s))))
       = historyIndex (app s) + 1
  /\ historyIndex (app (settle (List.length (inflight s)) o (selectCategory c s))) =
       Z.of_nat (List.length
         (history (app (settle (List.length (inflight s)) o (selectCategory c s))))) - 1
  /\ (historyIndex (app s) = 2 -> List.length (history (app s)) = 3%nat ->
      List.length
        (history (app (settle (List.length (inflight s)) o (selectCategory c s)))) = 4%nat
      /\ historyIndex (app (settle (List.length (inflight s)) o (selectCategory c s))) = 3).
Proof.
  intros Hkey Hq Hcat Hother Hres Hne.
  pose proof (at_index_bounds _ _ _ Hq) as Hin.
  rewrite (category_change_settled s c o q x y) by assumption.
  cbn [history historyIndex].
  assert (Hlen : Z.of_nat (List.length
                   (firstn (Z.to_nat (historyIndex (app s) + 1)) (history (app s))))
                 = historyIndex (app s) + 1)
    by (rewrite length_firstn; lia).
  split; [ | split; [ | split; [ | split ] ] ].
  - rewrite selectCategory_stale by (auto; right; exists q; auto).
    replace (historyIndex (app s) =? -1) with false
      by (symmetry; apply Z.eqb_neq; lia).
    reflexivity.
  - reflexivity.
  - exact Hlen.
  - rewrite length_app. simpl. lia.
  - intros Hidx Hthree. rewrite length_app. simpl. split; lia.
Qed.

(** A click on Next Question whose request settles with two strings, one
    at least non-empty: whatever [history] held, it now holds the new
    entry alone. *)
Lemma next_click_settled (s : System) (o : FetchOutcome) (x y : string) :
  credential_present ->
  isLoading (app s) = false ->
  fetchOptionsFromAI_response o = inr (JsArray [JsString x; JsString y]) ->
  x <> "" \/ y <> "" ->
  app (settle (List.length (inflight s)) o (requestNext s)) =
  {| selectedCategory := selectedCategory (app s); optionA := x; optionB := y;
     isLoading := false; error := "";
     history := [{| category := selectedCategory (app s);
                    question_optionA := x; question_optionB := y |}];
     historyIndex := 0 |}.
Proof.
  intros Hkey Hload Hres Hne.
  unfold requestNext. rewrite Hload.
  destruct (handleGenerateNew_suspends ClickEvent s Hkey) as (req & ->).
  unfold settle. cbn [inflight]. rewrite nth_error_last.
  unfold fetchOptionsFromAI_resume. rewrite Hres.
  rewrite resume_recorded by exact Hne.
  apply recorded_pair in Hne. rewrite Hne.
  cbn [call_arg call_selectedCategory call_historyIndex app initialLoad
       setError setIsLoading
       selectedCategory history historyIndex error optionA optionB isLoading].
  rewrite (useEffect_fresh _ {| category := selectedCategory (app s);
                                question_optionA := x; question_optionB := y |});
    reflexivity.
Qed.

(** The request of any suspended call settling in failure, whatever else
    is in flight, leaves [history] and [historyIndex] alone. *)
Lemma failed_settle (k : nat) (o : FetchOutcome) (s : System) :
  snd (fetchOptionsFromAI_resume o (app s)) = no_options ->
  history (app (settle k o s)) = history (app s)
  /\ historyIndex (app (settle k o s)) = historyIndex (app s)
  /\ selectedCategory (app (settle k o s)) = selectedCategory (app s).
Proof.
  intros Hnone. unfold settle.
  destruct (nth_error (inflight s) k) as [ c | ]; [ | repeat split ].
  revert Hnone. unfold fetchOptionsFromAI_resume.
  destruct (fetchOptionsFromAI_response o) as [ err | options ]; cbn [snd].
  - intros _. repeat split.
  - intros ->. repeat split.
Qed.

(** A generation that fails, from the call to the end. *)
Lemma failed_generation (s : System) (arg : Arg) (o : FetchOutcome) :
  fails s o ->
  app (generation arg o s) =
  {| selectedCategory := selectedCategory (app s); optionA := ""; optionB := "";
     isLoading := false;
     error := client_error (fetchOptionsFromAI (selectedCategory (app s)) (fun _ => o));
     history := history (app s); historyIndex := historyIndex (app s) |}.
Proof.
  unfold fails, generation, fetchOptionsFromAI, handleGenerateNew.
  destruct (fetchOptionsFromAI_request (selectedCategory (app s))) as [ err | req ].
  - intros _. unfold settle. cbn [inflight].
    replace (nth_error (inflight s) (List.length (inflight s))) with (@None Call)
      by (symmetry; apply nth_error_None; lia).
    reflexivity.
  - unfold settle, fetchOptionsFromAI_resume. cbn [inflight app].
    rewrite nth_error_last.
    destruct (fetchOptionsFromAI_response o) as [ err | options ].
    + intros _. reflexivity.
    + cbn [returned]. intros ->. reflexivity.
Qed.

(** C6.  A generation that fails, because the client caught an error or
    because both strings it returned are empty, ends with both options
    empty, [error] holding what the client last passed to [setError] (the
    message of the caught error, if there was one), [isLoading] false, and
    [history] and [historyIndex] as they were; so they still are after a
    second failed generation. *)
Theorem failed_generation_records_nothing
    (s : System) (arg arg' : Arg) (o o' : FetchOutcome) :
  fails s o ->
  fails (generation arg o s) o' ->
  (optionA (app (generation arg o s)) = ""
   /\ optionB (app (generation arg o s)) = ""
   /\ error (app (generation arg o s)) =
        client_error (fetchOptionsFromAI (selectedCategory (app s)) (fun _ => o))
   /\ (forall err, try_block (selectedCategory (app s)) (fun _ => o) = inl err ->
        error (app (generation arg o s)) = catch_message err)
   /\ isLoading (app (generation arg o s)) = false
   /\ history (app (generation arg o s)) = history (app s)
   /\ historyIndex (app (generation arg o s)) = historyIndex (app s))
  /\ history (app (generation arg' o' (generation arg o s))) = history (app s)
  /\ historyIndex (app (generation arg' o' (generation arg o s))) = historyIndex (app s).
Proof.
  intros Hfail Hfail'.
  rewrite (failed_generation _ arg' o' Hfail').
  rewrite (failed_generation s arg o Hfail).
  cbn [optionA optionB error isLoading history historyIndex].
  repeat split.
  intros err Hthrown.
  destruct (try_block_thrown _ _ _ Hthrown) as (_ & Hcalls).
  unfold client_error. rewrite Hcalls. reflexivity.
Qed.

(** C10.  When the service answers with a well-formed array of two empty
    strings, the client hands it on and sets no error, and the controller
    treats the generation as failed: nothing is recorded, both options
    are empty, and [error] is empty too, so that the session rests in a
    state that is neither idle with a pair nor errored. *)
Theorem two_empty_strings_leave_no_pair_and_no_error
    (s : System) (arg : Arg) (o : FetchOutcome) :
  credential_present ->
  decodes_to o no_options ->
  (fetchOptionsFromAI_response o = inr no_options
   /\ returned (fetchOptionsFromAI (selectedCategory (app s)) (fun _ => o)) = no_options
   /\ setError_calls (fetchOptionsFromAI (selectedCategory (app s)) (fun _ => o)) = [""])
  /\ (history (app (generation arg o s)) = history (app s)
      /\ historyIndex (app (generation arg o s)) = historyIndex (app s)
      /\ optionA (app (generation arg o s)) = ""
      /\ optionB (app (generation arg o s)) = ""
      /\ error (app (generation arg o s)) = ""
      /\ isLoading (app (generation arg o s)) = false)
  /\ ~ Idle (app (generation arg o s))
  /\ ~ Errored (app (generation arg o s)).
Proof.
  intros Hkey Hdec.
  assert (Hres : fetchOptionsFromAI_response o = inr no_options).
  { apply response_returns. split; [ exact Hdec | reflexivity ]. }
  destruct (request_with_key (selectedCategory (app s)) Hkey) as (req & Hreq).
  assert (Hrun : fetchOptionsFromAI (selectedCategory (app s)) (fun _ => o) =
                 {| issued := [req]; setError_calls := [""]; returned := no_options |}).
  { unfold fetchOptionsFromAI. rewrite Hreq, Hres. reflexivity. }
  assert (Hfail : fails s o) by (unfold fails; rewrite Hrun; reflexivity).
  rewrite (failed_generation s arg o Hfail), Hrun.
  cbn [returned setError_calls client_error last
       optionA optionB error isLoading history historyIndex].
  split; [ | split; [ | split ] ].
  - repeat split; assumption.
  - repeat split.
  - intros (_ & _ & [ Ha | Hb ]); [ apply Ha | apply Hb ]; reflexivity.
  - intros (_ & Herr & _). apply Herr. reflexivity.
Qed.

End Controller.

(** * The cursor while one request is outstanding at a time *)

Section SingleFlight.

Context {E : Environment}.

Lemma handleGenerateNew_single (arg : Arg) (s : System) :
  inflight s = [] -> cursor_valid (app s) ->
  cursor_valid (app (handleGenerateNew arg s)) /\ single_flight (handleGenerateNew arg s).
Proof.
  intros Hnone Hvalid. unfold handleGenerateNew.
  destruct (fetchOptionsFromAI_request (selectedCategory (app s))) as [ err | req ].
  - split; [ exact Hvalid | left; exact Hnone ].
  - split; [ exact Hvalid | ].
    right. cbn [inflight app]. rewrite Hnone. eexists. repeat split.
Qed.

Lemma useEffect_single (s : System) :
  inflight s = [] -> cursor_valid (app s) ->
  cursor_valid (app (useEffect s)) /\ single_flight (useEffect s).
Proof.
  intros Hnone Hvalid. unfold useEffect.
  match goal with |- context [ if ?b then _ else _ ] => destruct b end.
  - apply handleGenerateNew_single; assumption.
  - split; [ exact Hvalid | left; exact Hnone ].
Qed.

Lemma idle_when_not_loading (s : System) :
  single_flight s -> isLoading (app s) = false -> inflight s = [].
Proof.
  intros [ Hnone | (c & _ & _ & Hload) ] Hoff; [ exact Hnone | congruence ].
Qed.

Lemma resume_keeps_cursor (c : Call) (v : JsValue) (a : App) :
  two_string_array v ->
  call_historyIndex c = historyIndex a ->
  cursor_valid a ->
  cursor_valid (handleGenerateNew_resume c v a).
Proof.
  intros (x & y & ->) Hsame Hvalid.
  destruct (recorded (JsArray [JsString x; JsString y])) eqn:Hrec.
  - apply recorded_pair in Hrec. rewrite resume_recorded by exact Hrec.
    unfold cursor_valid. cbn [history historyIndex]. right.
    destruct (initialLoad (call_arg c)).
    + simpl. lia.
    + rewrite Hsame, length_app. simpl.
      destruct Hvalid as [ Hminus | Hin ].
      * rewrite Hminus. simpl. lia.
      * rewrite Nat2Z.inj_add, slice_to_length by lia. simpl. lia.
  - rewrite (not_recorded _ (ex_intro _ x (ex_intro _ y eq_refl)) Hrec).
    rewrite resume_no_options. exact Hvalid.
Qed.

Lemma resume_client_shape (o : FetchOutcome) (a : App) :
  two_string_array (snd (fetchOptionsFromAI_resume o a))
  /\ history (fst (fetchOptionsFromAI_resume o a)) = history a
  /\ historyIndex (fst (fetchOptionsFromAI_resume o a)) = historyIndex a.
Proof.
  unfold fetchOptionsFromAI_resume.
  destruct (fetchOptionsFromAI_response o) as [ err | options ] eqn:Hres.
  - repeat split. exists "", "". reflexivity.
  - repeat split. apply (response_shape _ _ Hres).
Qed.

Lemma settle_single (k : nat) (o : FetchOutcome) (s : System) :
  cursor_valid (app s) -> single_flight s ->
  cursor_valid (app (settle k o s)) /\ single_flight (settle k o s).
Proof.
  intros Hvalid Hsingle. unfold settle.
  destruct (nth_error (inflight s) k) as [ c | ] eqn:Hk; [ | split; assumption ].
  destruct Hsingle as [ Hnone | (c0 & Hone & Hsame & Hload) ].
  { rewrite Hnone in Hk. destruct k; discriminate. }
  rewrite Hone in Hk. destruct k as [ | k ]; [ | destruct k; discriminate ].
  injection Hk as <-.
  destruct (resume_client_shape o (app s)) as (Hshape & Hhist & Hidx).
  destruct (fetchOptionsFromAI_resume o (app s)) as [ a0 v ].
  cbn [fst snd] in Hshape, Hhist, Hidx.
  assert (Hvalid0 : cursor_valid a0).
  { unfold cursor_valid. rewrite Hhist, Hidx. exact Hvalid. }
  assert (Hkept : cursor_valid (handleGenerateNew_resume c0 v a0)).
  { apply resume_keeps_cursor; congruence. }
  rewrite Hone.
  destruct (recorded v).
  - apply useEffect_single; [ reflexivity | exact Hkept ].
  - split; [ exact Hkept | left; reflexivity ].
Qed.

Lemma step_single (s : System) (e : Event) :
  cursor_valid (app s) -> single_flight s -> gated s e ->
  cursor_valid (app (step s e)) /\ single_flight (step s e).
Proof.
  intros Hvalid Hsingle Hgate.
  destruct e as [ c | | | k o ]; cbn [step].
  - unfold selectCategory. cbn [gated] in Hgate.
    destruct (String.eqb c (selectedCategory (app s))); [ split; assumption | ].
    apply useEffect_single; assumption.
  - unfold requestNext.
    destruct (isLoading (app s)) eqn:Hload; [ split; assumption | ].
    apply handleGenerateNew_single; [ | exact Hvalid ].
    apply idle_when_not_loading; assumption.
  - unfold requestPrevious.
    destruct (isLoading (app s)) eqn:Hload; [ split; assumption | ].
    destruct (historyIndex (app s) <=? 0) eqn:Hidx; [ split; assumption | ].
    cbn [orb]. apply Z.leb_gt in Hidx.
    unfold handlePrevious.
    replace (0 <? historyIndex (app s)) with true by (symmetry; apply Z.ltb_lt; lia).
    destruct (at_index (history (app s)) (historyIndex (app s) - 1)) as [ q | ];
      [ | split; assumption ].
    apply useEffect_single.
    + change (inflight s = []). apply idle_when_not_loading; assumption.
    + unfold cursor_valid in *. cbn. lia.
  - apply settle_single; assumption.
Qed.

(** With one request outstanding at a time, the cursor is -1 or an index
    into [history] after every event. *)
Lemma cursor_valid_single_flight (es : list Event) (s : System) :
  cursor_valid (app s) -> single_flight s -> gated_run s es ->
  cursor_valid (app (run s es)).
Proof.
  revert s. induction es as [ | e rest IH ]; intros s Hvalid Hsingle Hrun.
  - exact Hvalid.
  - destruct Hrun as (Hgate & Hrest).
    destruct (step_single s e Hvalid Hsingle Hgate) as (Hvalid' & Hsingle').
    apply (IH (step s e)); assumption.
Qed.

Lemma mount_single : cursor_valid (app mount) /\ single_flight mount.
Proof.
  apply useEffect_single; [ reflexivity | left; reflexivity ].
Qed.

(** X19.  From the first render on, as long as no category is selected
    while a request is outstanding, the cursor is -1 or an index into
    [history] after every event. *)
Lemma cursor_valid_from_mount (es : list Event) :
  gated_run mount es -> cursor_valid (app (run mount es)).
Proof.
  destruct mount_single as (Hvalid & Hsingle).
  apply cursor_valid_single_flight; assumption.
Qed.

End SingleFlight.

(** * The component at work *)

(** C1.  From a session with two entries and the cursor on the second, a
    click on Next Question calls [handleGenerateNew] with the click event,
    which the handler reads as [initialLoad]: when the generation succeeds
    [history] is replaced by the new entry alone and the cursor is 0,
    where an append would have given three entries and cursor 2. *)
Theorem next_question_click_resets_history :
  List.length (history (app two_rounds)) = 2%nat
  /\ historyIndex (app two_rounds) = 1
  /\ isLoading (app two_rounds) = false
  /\ generations (@requestNext configured two_rounds) =
       (generations two_rounds
        ++ [{| call_arg := ClickEvent;
               call_selectedCategory := "Animals";
               call_historyIndex := 1 |}])%list
  /\ initialLoad ClickEvent = true
  /\ history (app (@run configured two_rounds
                     [ClickNext; Settle 0 (reply ["Owls"; "Larks"])])) =
       [{| category := "Animals";
           question_optionA := "Owls"; question_optionB := "Larks" |}]
  /\ historyIndex (app (@run configured two_rounds
                          [ClickNext; Settle 0 (reply ["Owls"; "Larks"])])) = 0.
Proof.
  repeat split; vm_compute; reflexivity.
Qed.

(** C7.  When two categories are selected while one request is
    outstanding, two calls made from the same render settle one after the
    other: the second cuts [history] by the cursor its closure captured
    but advances the cursor of the moment, which ends at 2 in a history of
    2 entries. *)
Theorem overlapping_generations_break_cursor :
  cursor_valid (app (@mount configured))
  /\ history (app (@run configured (@mount configured) overlapping)) =
       [{| category := "Everyday Life";
           question_optionA := "Tea"; question_optionB := "Coffee" |};
        {| category := "Superpowers";
           question_optionA := "Fly"; question_optionB := "Teleport" |}]
  /\ historyIndex (app (@run configured (@mount configured) overlapping)) = 2
  /\ ~ cursor_valid (app (@run configured (@mount configured) overlapping)).
Proof.
  split; [ left; reflexivity | ].
  split; [ vm_compute; reflexivity | ].
  split; [ vm_compute; reflexivity | ].
  unfold cursor_valid.
  replace (historyIndex (app (@run configured (@mount configured) overlapping)))
    with 2 by (vm_compute; reflexivity).
  replace (List.length (history (app (@run configured (@mount configured) overlapping))))
    with 2%nat by (vm_compute; reflexivity).
  lia.
Qed.

(** C2, the claim as stated fails: a payload with an empty string in it is
    accepted, though it does not decode to two strings that are both
    non-empty. *)
Lemma empty_string_element_is_accepted :
  @accepts configured (reply [""; "Coffee"])
  /\ @decodes_to configured (reply [""; "Coffee"]) (JsArray [JsString ""; JsString "Coffee"])
  /\ ~ (exists v, @decodes_to configured (reply [""; "Coffee"]) v
                  /\ two_nonempty_string_array v).
Proof.
  assert (Hdec : @decodes_to configured (reply [""; "Coffee"])
                   (JsArray [JsString ""; JsString "Coffee"])).
  { eexists. split; vm_compute; reflexivity. }
  split; [ | split ].
  - eexists. vm_compute. reflexivity.
  - exact Hdec.
  - intros (v & (text & Htext & Hparse) & (a & b & -> & Ha & _)).
    vm_compute in Htext. injection Htext as <-.
    vm_compute in Hparse. injection Hparse as <- _. apply Ha. reflexivity.
Qed.

(** C3, the claim as stated fails: after a first load that failed nothing
    is in flight and the entry at the cursor is absent, yet selecting the
    selected category again triggers no generation. *)
Lemma reselecting_after_failure_triggers_nothing :
  inflight after_failed_load = []
  /\ isLoading (app after_failed_load) = false
  /\ historyIndex (app after_failed_load) = -1
  /\ at_index (history (app after_failed_load)) (historyIndex (app after_failed_load)) = None
  /\ generations (@selectCategory configured "Everyday Life" after_failed_load)
       = generations after_failed_load
  /\ requests (@selectCategory configured "Everyday Life" after_failed_load)
       = requests after_failed_load.
Proof.
  repeat split; vm_compute; reflexivity.
Qed.

(** * The theorems at concrete sessions *)

Lemma configured_has_key : @credential_present configured.
Proof. exists "test-key". split; [ reflexivity | discriminate ]. Qed.

(** X20 at the session with three entries and cursor 2: a fourth entry
    is appended and the cursor is 3. *)
Lemma category_change_truncates_then_appends_witness :
  List.length
    (history (app (@settle configured (List.length (inflight three_rounds))
                     (reply ["Pineapple on pizza"; "No pineapple on pizza"])
                     (@selectCategory configured "Food & Drink" three_rounds)))) = 4%nat
  /\ historyIndex
       (app (@settle configured (List.length (inflight three_rounds))
               (reply ["Pineapple on pizza"; "No pineapple on pizza"])
               (@selectCategory configured "Food & Drink" three_rounds))) = 3.
Proof.
  destruct (@category_change_truncates_then_appends configured
              three_rounds "Food & Drink"
              (reply ["Pineapple on pizza"; "No pineapple on pizza"])
              {| category := "Superpowers";
                 question_optionA := "Fly"; question_optionB := "Teleport" |}
              "Pineapple on pizza" "No pineapple on pizza")
    as (_ & _ & _ & _ & Hscenario).
  - exact configured_has_key.
  - vm_compute. reflexivity.
  - discriminate.
  - vm_compute. discriminate.
  - vm_compute. reflexivity.
  - left. discriminate.
  - apply Hscenario; vm_compute; reflexivity.
Defined.


(** C6 at the session with two entries: a click on Next Question that
    finds no network, then one that is answered with three strings. *)
Lemma failed_generation_records_nothing_witness :
  history (app (@generation configured ClickEvent (reply ["One"; "Two"; "Three"])
                  (@generation configured ClickEvent offline two_rounds)))
    = history (app two_rounds)
  /\ historyIndex (app (@generation configured ClickEvent (reply ["One"; "Two"; "Three"])
                         (@generation configured ClickEvent offline two_rounds)))
    = historyIndex (app two_rounds)
  /\ error (app (@generation configured ClickEvent offline two_rounds))
    = catch_message (mkExn "Failed to fetch").
Proof.
  destruct (@failed_generation_records_nothing configured two_rounds
              ClickEvent ClickEvent offline (reply ["One"; "Two"; "Three"]))
    as ((_ & _ & _ & Hmsg & _) & Hhist & Hidx).
  - vm_compute. reflexivity.
  - vm_compute. reflexivity.
  - refine (conj Hhist (conj Hidx _)).
    apply Hmsg. vm_compute. reflexivity.
Defined.

(** C8 in a build without the key: the first load sends nothing and
    shows the text that names the missing key. *)
Lemma missing_credential_fails_before_fetch_witness :
  @credential_absent unconfigured
  /\ issued (@fetchOptionsFromAI unconfigured "Animals" (fun _ => offline)) = []
  /\ requests (@handleGenerateNew unconfigured (BoolArg true) idle) = []
  /\ error (app (@handleGenerateNew unconfigured (BoolArg true) idle))
     = "Failed to fetch options: GEMINI_API_KEY is not configured. Please set REACT_APP_GEMINI_API_KEY in Netlify environment variables.. Please check your network or API key configuration."
  /\ display (app (@mount unconfigured))
     = ErrorText "Failed to fetch options: GEMINI_API_KEY is not configured. Please set REACT_APP_GEMINI_API_KEY in Netlify environment variables.. Please check your network or API key configuration.".
Proof.
  assert (Habsent : @credential_absent unconfigured) by (left; reflexivity).
  destruct (@missing_credential_fails_before_fetch unconfigured
              "Animals" (fun _ => offline) (BoolArg true) idle Habsent)
    as (Hissued & _ & _ & _ & Hsent & _ & Herror & Hshown & _).
  exact (conj Habsent (conj Hissued (conj Hsent (conj Herror Hshown)))).
Defined.

(** C10 at the session with two entries: the service answers a click on
    Next Question with two empty strings. *)
Lemma two_empty_strings_leave_no_pair_and_no_error_witness :
  @decodes_to configured (reply [""; ""]) no_options
  /\ history (app (@generation configured ClickEvent (reply [""; ""]) two_rounds))
     = history (app two_rounds)
  /\ optionA (app (@generation configured ClickEvent (reply [""; ""]) two_rounds)) = ""
  /\ error (app (@generation configured ClickEvent (reply [""; ""]) two_rounds)) = ""
  /\ ~ Idle (app (@generation configured ClickEvent (reply [""; ""]) two_rounds))
  /\ ~ Errored (app (@generation configured ClickEvent (reply [""; ""]) two_rounds)).
Proof.
  assert (Hdec : @decodes_to configured (reply [""; ""]) no_options).
  { eexists. split; vm_compute; reflexivity. }
  destruct (@two_empty_strings_leave_no_pair_and_no_error configured
              two_rounds ClickEvent (reply [""; ""]) configured_has_key Hdec)
    as (_ & (Hhist & _ & Ha & _ & Herr & _) & Hidle & Herrored).
  exact (conj Hdec (conj Hhist (conj Ha (conj Herr (conj Hidle Herrored))))).
Defined.

(** * The client at the edges of a response *)

Section ClientEdges.

Context {E : Environment}.

(** X1.  A response whose status is not a success is never accepted,
    whatever its body holds: when the body is JSON the error carries the
    status and the body, and when reading the body fails it is that
    failure which is reported; either way the client hands back two empty
    strings after the one request. *)
Theorem error_status_is_reported (r : Response) (category0 : string) :
  ok r = false ->
  credential_present ->
  (forall options, fetchOptionsFromAI_response (Resolved r) <> inr options)
  /\ (forall errorData, json r = inr errorData ->
        client_error (fetchOptionsFromAI category0 (fun _ => Resolved r))
          = catch_message (http_error r errorData))
  /\ (forall err, json r = inl err ->
        client_error (fetchOptionsFromAI category0 (fun _ => Resolved r))
          = catch_message err)
  /\ returned (fetchOptionsFromAI category0 (fun _ => Resolved r)) = no_options
  /\ List.length (issued (fetchOptionsFromAI category0 (fun _ => Resolved r))) = 1%nat.
Proof.
  intros Hok Hkey.
  destruct (request_with_key category0 Hkey) as (req & Hreq).
  unfold fetchOptionsFromAI. rewrite Hreq.
  unfold fetchOptionsFromAI_response. rewrite Hok. cbn [negb]. unfold bind.
  destruct (json r) as [ err | errorData ].
  - split; [ discriminate | ].
    split; [ discriminate | ].
    split; [ intros err' [= <-]; reflexivity | split; reflexivity ].
  - split; [ discriminate | ].
    split; [ intros errorData' [= <-]; reflexivity | ].
    split; [ discriminate | split; reflexivity ].
Qed.

(** X2.  The envelope test refuses a body with no candidates, with an
    empty candidate list, or whose first candidate has no content or no
    parts, as empty or malformed; a body that is [null], or a first
    candidate that is [null], makes a property read throw, and that
    TypeError is what the client reports.  In no such case is
    [JSON.parse] reached. *)
Theorem malformed_envelopes_are_refused (result : JsValue) :
  (forall candidates,
     get result (Named "candidates") = inr candidates ->
     truthy candidates = false ->
     validate result = inl empty_or_malformed)
  /\ (get result (Named "candidates") = inr (JsArray []) ->
      validate result = inl empty_or_malformed)
  /\ (forall rest first content,
        get result (Named "candidates") = inr (JsArray (first :: rest)) ->
        get first (Named "content") = inr content ->
        truthy content = false ->
        validate result = inl empty_or_malformed)
  /\ (forall rest first content parts,
        get result (Named "candidates") = inr (JsArray (first :: rest)) ->
        get first (Named "content") = inr content ->
        truthy content = true ->
        get content (Named "parts") = inr parts ->
        truthy parts = false \/ parts = JsArray [] ->
        validate result = inl empty_or_malformed)
  /\ (result = JsNull ->
      validate result = inl (nullish_read JsNull "candidates"))
  /\ (forall rest,
        get result (Named "candidates") = inr (JsArray (JsNull :: rest)) ->
        validate result = inl (nullish_read JsNull "content")).
Proof.
  unfold validate, envelope_nonempty, bind.
  repeat match goal with |- _ /\ _ => split end.
  - intros candidates -> ->. reflexivity.
  - intros ->. reflexivity.
  - intros rest first content -> Hcontent Hfalsy. cbn.
    unfold bind. rewrite Hcontent, Hfalsy. reflexivity.
  - intros rest first content parts -> Hcontent Htruthy Hparts Hempty. cbn.
    unfold bind. rewrite Hcontent, Htruthy. cbn. rewrite Hparts.
    destruct Hempty as [ -> | -> ]; reflexivity.
  - intros ->. reflexivity.
  - intros rest ->. reflexivity.
Qed.

End ClientEdges.

(** * More on arrays *)

Lemma at_index_past {A : Type} (xs : list A) (i : Z) :
  Z.of_nat (List.length xs) <= i -> at_index xs i = None.
Proof.
  intros Hpast. unfold at_index.
  destruct (i <? 0) eqn:Hneg; [ reflexivity | ].
  apply nth_error_None. lia.
Qed.

Lemma at_index_firstn {A : Type} (xs ys : list A) (i : Z) (x : A) :
  at_index xs i = Some x ->
  at_index (firstn (Z.to_nat (i + 1)) xs ++ ys) i = Some x.
Proof.
  intros Hx. pose proof (at_index_bounds _ _ _ Hx) as Hin.
  unfold at_index in *. destruct (i <? 0); [ discriminate | ].
  rewrite nth_error_app1 by (rewrite length_firstn; lia).
  rewrite nth_error_firstn.
  replace (Z.to_nat i <? Z.to_nat (i + 1))%nat with true
    by (symmetry; apply Nat.ltb_lt; lia).
  exact Hx.
Qed.

Lemma slice_to_shorter {A : Type} (xs : list A) (e : Z) :
  (List.length (slice_to xs e) <= List.length xs)%nat.
Proof.
  unfold slice_to. rewrite length_firstn. lia.
Qed.

Lemma Forall_slice_to {A : Type} (P : A -> Prop) (xs : list A) (e : Z) :
  Forall P xs -> Forall P (slice_to xs e).
Proof.
  intros Hall. unfold slice_to.
  rewrite <- (firstn_skipn (Z.to_nat (if e <? 0
                                      then Z.max (Z.of_nat (List.length xs) + e) 0
                                      else Z.min e (Z.of_nat (List.length xs)))) xs)
    in Hall.
  apply Forall_app in Hall. apply Hall.
Qed.

Lemma without_appended {A : Type} (xs : list A) (x : A) :
  without (List.length xs) (xs ++ [x]) = xs.
Proof.
  unfold without.
  rewrite firstn_app, Nat.sub_diag, firstn_all, skipn_all2.
  - simpl. rewrite !app_nil_r. reflexivity.
  - rewrite length_app. simpl. lia.
Qed.


Lemma Forall_without {A : Type} (P : A -> Prop) (k : nat) (xs : list A) :
  Forall P xs -> Forall P (without k xs).
Proof.
  intros Hall. unfold without. apply Forall_app. split.
  - rewrite <- (firstn_skipn k xs) in Hall. apply Forall_app in Hall. apply Hall.
  - rewrite <- (firstn_skipn (S k) xs) in Hall. apply Forall_app in Hall. apply Hall.
Qed.

(** * Generations from call to end *)

Section Generations.

Context {E : Environment}.

(** A generation that succeeds, from the call to the end, in a session
    whose cursor is -1 or an index. *)
Lemma recorded_generation (s : System) (arg : Arg) (o : FetchOutcome) (x y : string) :
  credential_present ->
  cursor_valid (app s) ->
  fetchOptionsFromAI_response o = inr (JsArray [JsString x; JsString y]) ->
  x <> "" \/ y <> "" ->
  exists req kept,
    generation arg o s =
    {| app :=
         {| selectedCategory := selectedCategory (app s);
            optionA := x; optionB := y; isLoading := false; error := "";
            history := (kept ++ [{| category := selectedCategory (app s);
                                    question_optionA := x;
                                    question_optionB := y |}])%list;
            historyIndex := Z.of_nat (List.length kept) |};
       inflight := inflight s;
       requests := (requests s ++ [req])%list;
       generations :=
         (generations s ++ [{| call_arg := arg;
                               call_selectedCategory := selectedCategory (app s);
                               call_historyIndex := historyIndex (app s) |}])%list |}
    /\ kept = (if initialLoad arg then []
               else firstn (Z.to_nat (historyIndex (app s) + 1)) (history (app s))).
Proof.
  intros Hkey Hvalid Hres Hne.
  unfold generation.
  destruct (handleGenerateNew_suspends arg s Hkey) as (req & ->).
  exists req.
  exists (if initialLoad arg then []
          else firstn (Z.to_nat (historyIndex (app s) + 1)) (history (app s))).
  split; [ | reflexivity ].
  unfold settle. cbn [inflight]. rewrite nth_error_last, without_appended.
  unfold fetchOptionsFromAI_resume. rewrite Hres.
  rewrite resume_recorded by exact Hne.
  apply recorded_pair in Hne. rewrite Hne.
  cbn [call_arg call_selectedCategory call_historyIndex app
       setError setIsLoading
       selectedCategory history historyIndex error optionA optionB isLoading].
  assert (Hidx : (if initialLoad arg then 0 else historyIndex (app s) + 1) =
                 Z.of_nat (List.length
                   (if initialLoad arg then []
                    else firstn (Z.to_nat (historyIndex (app s) + 1)) (history (app s))))).
  { destruct (initialLoad arg); [ reflexivity | ].
    rewrite length_firstn. unfold cursor_valid in Hvalid. lia. }
  assert (Hkept : (if initialLoad arg then []
                   else slice_to (history (app s)) (historyIndex (app s) + 1)) =
                  (if initialLoad arg then []
                   else firstn (Z.to_nat (historyIndex (app s) + 1)) (history (app s)))).
  { destruct (initialLoad arg); [ reflexivity | ].
    apply slice_to_firstn. unfold cursor_valid in Hvalid. lia. }
  rewrite Hkept, Hidx.
  rewrite (useEffect_fresh _ {| category := selectedCategory (app s);
                                question_optionA := x; question_optionB := y |}).
  - reflexivity.
  - apply at_index_appended.
  - reflexivity.
Qed.

(** X3.  A call of [handleGenerateNew], whatever made it, whose request
    settles before any other event (no click between the call and the
    answer) with two strings of which one at least is not empty, in a
    session whose cursor is valid: it ends with the cursor on the entry
    it recorded, that entry being the pair on display under the selected
    category, the error cleared and nothing more in flight than before;
    the effect that follows finds the entry up to date, so exactly one
    call and one request were made. *)
Theorem successful_generation_shows_what_it_recorded
    (s : System) (arg : Arg) (o : FetchOutcome) (x y : string) :
  credential_present ->
  cursor_valid (app s) ->
  fetchOptionsFromAI_response o = inr (JsArray [JsString x; JsString y]) ->
  x <> "" \/ y <> "" ->
  at_index (history (app (generation arg o s))) (historyIndex (app (generation arg o s)))
    = Some {| category := selectedCategory (app s);
              question_optionA := x; question_optionB := y |}
  /\ optionA (app (generation arg o s)) = x
  /\ optionB (app (generation arg o s)) = y
  /\ error (app (generation arg o s)) = ""
  /\ isLoading (app (generation arg o s)) = false
  /\ cursor_valid (app (generation arg o s))
  /\ inflight (generation arg o s) = inflight s
  /\ List.length (generations (generation arg o s)) = S (List.length (generations s))
  /\ List.length (requests (generation arg o s)) = S (List.length (requests s)).
Proof.
  intros Hkey Hvalid Hres Hne.
  destruct (recorded_generation s arg o x y Hkey Hvalid Hres Hne)
    as (req & kept & -> & _).
  cbn [app inflight requests generations
       history historyIndex optionA optionB error isLoading].
  split; [ apply at_index_appended | ].
  do 4 (split; [ reflexivity | ]).
  split.
  { right. cbn [history historyIndex]. rewrite length_app. simpl. lia. }
  split; [ reflexivity | ].
  rewrite !length_app. simpl. split; lia.
Qed.

(** X4.  The first load: when the request sent at mounting settles with
    two strings of which one at least is not empty, [history] is that one
    entry under the default category, the cursor is 0, the pair is on
    display and nothing else was called or sent. *)
Theorem first_load_records_one_entry (o : FetchOutcome) (x y : string) :
  credential_present ->
  fetchOptionsFromAI_response o = inr (JsArray [JsString x; JsString y]) ->
  x <> "" \/ y <> "" ->
  app (settle 0 o mount) =
    {| selectedCategory := "Everyday Life"; optionA := x; optionB := y;
       isLoading := false; error := "";
       history := [{| category := "Everyday Life";
                      question_optionA := x; question_optionB := y |}];
       historyIndex := 0 |}
  /\ display (app (settle 0 o mount)) =
       Panels (if nonempty x then x else placeholderA)
              (if nonempty y then y else placeholderB)
  /\ inflight (settle 0 o mount) = []
  /\ generations (settle 0 o mount) =
       [{| call_arg := BoolArg true;
           call_selectedCategory := "Everyday Life";
           call_historyIndex := -1 |}]
  /\ List.length (requests (settle 0 o mount)) = 1%nat.
Proof.
  intros Hkey Hres Hne.
  assert (Hgen : settle 0 o mount = generation (BoolArg true) o idle)
    by reflexivity.
  assert (Hvalid : cursor_valid (app idle)) by (left; reflexivity).
  rewrite Hgen.
  destruct (recorded_generation idle (BoolArg true) o x y Hkey Hvalid Hres Hne)
    as (req & kept & -> & ->).
  cbn [app inflight requests generations initialLoad initial idle
       selectedCategory history historyIndex]. simpl List.length.
  repeat match goal with |- _ /\ _ => split end; reflexivity.
Qed.

(** What a failed generation leaves of the two logs and of the calls in
    flight. *)
Lemma failed_generation_logs (s : System) (arg : Arg) (o : FetchOutcome) :
  fails s o ->
  generations (generation arg o s) =
    (generations s ++ [{| call_arg := arg;
                          call_selectedCategory := selectedCategory (app s);
                          call_historyIndex := historyIndex (app s) |}])%list
  /\ inflight (generation arg o s) = inflight s
  /\ (List.length (requests (generation arg o s)) <= S (List.length (requests s)))%nat.
Proof.
  unfold fails, generation, fetchOptionsFromAI, handleGenerateNew.
  destruct (fetchOptionsFromAI_request (selectedCategory (app s))) as [ err | req ].
  - intros _. unfold settle. cbn [inflight].
    replace (nth_error (inflight s) (List.length (inflight s))) with (@None Call)
      by (symmetry; apply nth_error_None; lia).
    cbn [generations inflight requests]. repeat split. lia.
  - unfold settle, fetchOptionsFromAI_resume. cbn [inflight app].
    rewrite nth_error_last, without_appended.
    destruct (fetchOptionsFromAI_response o) as [ err | options ].
    + intros _. cbn. rewrite length_app. simpl. repeat split. lia.
    + cbn [returned]. intros ->. cbn. rewrite length_app. simpl. repeat split. lia.
Qed.

(** X5.  A generation that fails is not tried again: it was one call of
    [handleGenerateNew] and at most one request, the effect does not run
    after it, and the calls in flight are those of before. *)
Theorem failed_generation_is_not_retried (s : System) (arg : Arg) (o : FetchOutcome) :
  fails s o ->
  generations (generation arg o s) =
    (generations s ++ [{| call_arg := arg;
                          call_selectedCategory := selectedCategory (app s);
                          call_historyIndex := historyIndex (app s) |}])%list
  /\ inflight (generation arg o s) = inflight s
  /\ (List.length (requests (generation arg o s)) <= S (List.length (requests s)))%nat
  /\ selectedCategory (app (generation arg o s)) = selectedCategory (app s)
  /\ nextDisabled (app (generation arg o s)) = false.
Proof.
  intros Hfail.
  destruct (failed_generation_logs s arg o Hfail) as (Hgen & Hfly & Hreq).
  rewrite (failed_generation s arg o Hfail).
  repeat match goal with |- _ /\ _ => split end; auto.
Qed.

Lemma catch_message_nonempty (err : Exn) : nonempty (catch_message err) = true.
Proof. reflexivity. Qed.

(** X6.  When the try block of the client throws, the options area shows
    the message of the caught error once the generation is over, and
    neither the spinner nor a pair. *)
Theorem caught_error_is_displayed
    (s : System) (arg : Arg) (o : FetchOutcome) (err : Exn) :
  try_block (selectedCategory (app s)) (fun _ => o) = inl err ->
  display (app (generation arg o s)) = ErrorText (catch_message err).
Proof.
  intros Hthrown.
  destruct (try_block_thrown _ _ _ Hthrown) as (Hnone & Hcalls).
  rewrite (failed_generation s arg o Hnone).
  unfold display, client_error. rewrite Hcalls.
  cbn [isLoading error last]. rewrite catch_message_nonempty. reflexivity.
Qed.

(** X7.  When the service answers with two empty strings, the options
    area shows the two placeholders, as it does before anything was
    generated: no error is shown for the generation that recorded
    nothing. *)
Theorem two_empty_strings_show_placeholders
    (s : System) (arg : Arg) (o : FetchOutcome) :
  credential_present ->
  decodes_to o no_options ->
  display (app (generation arg o s)) = Panels placeholderA placeholderB
  /\ display (app (generation arg o s)) = display initial.
Proof.
  intros Hkey Hdec.
  assert (Hres : fetchOptionsFromAI_response o = inr no_options).
  { apply response_returns. split; [ exact Hdec | reflexivity ]. }
  destruct (request_with_key (selectedCategory (app s)) Hkey) as (req & Hreq).
  assert (Hrun : fetchOptionsFromAI (selectedCategory (app s)) (fun _ => o) =
                 {| issued := [req]; setError_calls := [""]; returned := no_options |}).
  { unfold fetchOptionsFromAI. rewrite Hreq, Hres. reflexivity. }
  assert (Hfail : fails s o) by (unfold fails; rewrite Hrun; reflexivity).
  rewrite (failed_generation s arg o Hfail), Hrun.
  split; reflexivity.
Qed.

(** X8.  Nothing keeps to one request at a time: selecting another
    category while the entry at the cursor is absent or of another
    category sends a request whether or not one is outstanding, and the
    call joins those in flight. *)
Theorem selecting_while_loading_overlaps (s : System) (c : string) :
  credential_present ->
  c <> selectedCategory (app s) ->
  (at_index (history (app s)) (historyIndex (app s)) = None
   \/ exists q, at_index (history (app s)) (historyIndex (app s)) = Some q
                /\ category q <> c) ->
  inflight (selectCategory c s) =
    (inflight s ++ [{| call_arg := BoolArg (historyIndex (app s) =? -1);
                       call_selectedCategory := c;
                       call_historyIndex := historyIndex (app s) |}])%list
  /\ List.length (requests (selectCategory c s)) = S (List.length (requests s))
  /\ isLoading (app (selectCategory c s)) = true.
Proof.
  intros Hkey Hother Hstale. unfold selectCategory.
  apply String.eqb_neq in Hother. rewrite Hother.
  rewrite useEffect_stale by exact Hstale.
  destruct (handleGenerateNew_suspends
              (BoolArg (historyIndex (app (with_app (setSelectedCategory c (app s)) s)) =? -1))
              (with_app (setSelectedCategory c (app s)) s) Hkey) as (req & ->).
  cbn. rewrite length_app. simpl. repeat split. lia.
Qed.


(** X10.  Once the cursor is at or past the end of [history], the
    settlement of any call that is no initial load with two strings, one
    at least non-empty, leaves it there and, the entry at the cursor
    being absent, triggers one more generation: the session keeps asking
    for as long as the service answers. *)
Theorem cursor_past_end_regenerates
    (k : nat) (o : FetchOutcome) (s : System) (c : Call) (x y : string) :
  nth_error (inflight s) k = Some c ->
  initialLoad (call_arg c) = false ->
  cursor_past_end (app s) ->
  fetchOptionsFromAI_response o = inr (JsArray [JsString x; JsString y]) ->
  x <> "" \/ y <> "" ->
  cursor_past_end (app (settle k o s))
  /\ ~ cursor_valid (app (settle k o s))
  /\ historyIndex (app (settle k o s)) = historyIndex (app s) + 1
  /\ generations (settle k o s) =
       (generations s ++ [{| call_arg := BoolArg false;
                             call_selectedCategory := selectedCategory (app s);
                             call_historyIndex := historyIndex (app s) + 1 |}])%list.
Proof.
  intros Hk Hnot Hpast Hres Hne.
  unfold cursor_past_end in Hpast.
  unfold settle. rewrite Hk.
  unfold fetchOptionsFromAI_resume. rewrite Hres.
  rewrite resume_recorded by exact Hne.
  apply recorded_pair in Hne. rewrite Hne, Hnot.
  pose proof (slice_to_shorter (history (app s)) (call_historyIndex c + 1)) as Hshort.
  rewrite useEffect_stale.
  2:{ left. cbn [app history historyIndex]. apply at_index_past.
      rewrite length_app. simpl. lia. }
  destruct (handleGenerateNew_frame
              (BoolArg (historyIndex (app s) + 1 =? -1))
              {| app :=
                   {| selectedCategory := selectedCategory (app s);
                      optionA := x; optionB := y; isLoading := false;
                      error := error (app s);
                      history :=
                        (slice_to (history (app s)) (call_historyIndex c + 1)
                         ++ [{| category := call_selectedCategory c;
                                question_optionA := x;
                                question_optionB := y |}])%list;
                      historyIndex := historyIndex (app s) + 1 |};
                 inflight := without k (inflight s);
                 requests := requests s;
                 generations := generations s |})
    as (Hgen & _ & Hhist & Hidx).
  cbn [app history historyIndex selectedCategory generations] in *.
  unfold cursor_past_end, cursor_valid.
  rewrite Hhist, Hidx, Hgen.
  replace (historyIndex (app s) + 1 =? -1) with false
    by (symmetry; apply Z.eqb_neq; lia).
  rewrite length_app. simpl.
  repeat match goal with |- _ /\ _ => split end; try reflexivity; lia.
Qed.

End Generations.

(** * Moving back in the history *)

Section Navigation.

Context {E : Environment}.

(** The Previous Question button when it is enabled and the entry before
    the cursor exists. *)
Lemma requestPrevious_enabled (s : System) (q : Question) :
  isLoading (app s) = false ->
  0 < historyIndex (app s) ->
  at_index (history (app s)) (historyIndex (app s) - 1) = Some q ->
  requestPrevious s =
  with_app {| selectedCategory := category q;
              optionA := question_optionA q; optionB := question_optionB q;
              isLoading := false; error := error (app s);
              history := history (app s);
              historyIndex := historyIndex (app s) - 1 |} s.
Proof.
  intros Hload Hpos Hq. unfold requestPrevious.
  rewrite Hload. apply Z.leb_gt in Hpos as Hgate. rewrite Hgate. cbn [orb].
  unfold handlePrevious. apply Z.ltb_lt in Hpos as Hguard.
  rewrite Hguard, Hq. unfold ret.
  rewrite (useEffect_fresh _ q).
  - unfold with_app, setHistoryIndex, setSelectedCategory, setOptionB, setOptionA.
    cbn [selectedCategory optionA optionB isLoading error history historyIndex].
    rewrite Hload. reflexivity.
  - exact Hq.
  - reflexivity.
Qed.

(** X11.  Going back and then changing category drops what lay ahead:
    after Previous Question from cursor [i], a category change that
    succeeds leaves the first [i] entries followed by the new one, the
    cursor on it; the entry the session came back from is gone. *)
Theorem previous_then_change_discards_branch
    (s : System) (c : string) (o : FetchOutcome) (q : Question) (x y : string) :
  credential_present ->
  isLoading (app s) = false ->
  0 < historyIndex (app s) ->
  at_index (history (app s)) (historyIndex (app s) - 1) = Some q ->
  category q <> c ->
  fetchOptionsFromAI_response o = inr (JsArray [JsString x; JsString y]) ->
  x <> "" \/ y <> "" ->
  history (app (settle (List.length (inflight s)) o
                  (selectCategory c (requestPrevious s)))) =
    (firstn (Z.to_nat (historyIndex (app s))) (history (app s))
     ++ [{| category := c; question_optionA := x; question_optionB := y |}])%list
  /\ historyIndex (app (settle (List.length (inflight s)) o
                          (selectCategory c (requestPrevious s)))) = historyIndex (app s)
  /\ Z.of_nat (List.length
       (history (app (settle (List.length (inflight s)) o
                        (selectCategory c (requestPrevious s)))))) = historyIndex (app s) + 1.
Proof.
  intros Hkey Hload Hpos Hq Hcat Hres Hne.
  pose proof (at_index_bounds _ _ _ Hq) as Hin.
  rewrite (requestPrevious_enabled s q Hload Hpos Hq).
  match goal with
  | |- context [ selectCategory c ?s1 ] =>
      pose proof (category_change_settled s1 c o q x y Hkey) as Hsettled
  end.
  cbn [with_app app inflight history historyIndex selectedCategory] in Hsettled.
  rewrite Hsettled; auto.
  cbn [history historyIndex].
  replace (historyIndex (app s) - 1 + 1) with (historyIndex (app s)) by lia.
  repeat match goal with |- _ /\ _ => split end; try reflexivity.
  rewrite length_app, length_firstn. simpl. lia.
Qed.

(** X12.  Previous Question undoes a category change: after a change of
    category that succeeded from a session resting on an entry, one click
    shows that entry again, options and category, with the cursor where
    it was, and calls nothing; the new entry stays in [history]. *)
Theorem previous_undoes_category_change
    (s : System) (c : string) (o : FetchOutcome) (q : Question) (x y : string) :
  credential_present ->
  at_index (history (app s)) (historyIndex (app s)) = Some q ->
  category q <> c ->
  c <> selectedCategory (app s) ->
  fetchOptionsFromAI_response o = inr (JsArray [JsString x; JsString y]) ->
  x <> "" \/ y <> "" ->
  app (requestPrevious (settle (List.length (inflight s)) o (selectCategory c s))) =
    {| selectedCategory := category q;
       optionA := question_optionA q; optionB := question_optionB q;
       isLoading := false; error := "";
       history :=
         (firstn (Z.to_nat (historyIndex (app s) + 1)) (history (app s))
          ++ [{| category := c; question_optionA := x; question_optionB := y |}])%list;
       historyIndex := historyIndex (app s) |}
  /\ generations (requestPrevious (settle (List.length (inflight s)) o (selectCategory c s)))
     = generations (settle (List.length (inflight s)) o (selectCategory c s))
  /\ requests (requestPrevious (settle (List.length (inflight s)) o (selectCategory c s)))
     = requests (settle (List.length (inflight s)) o (selectCategory c s)).
Proof.
  intros Hkey Hq Hcat Hother Hres Hne.
  pose proof (at_index_bounds _ _ _ Hq) as Hin.
  pose proof (category_change_settled s c o q x y Hkey Hq Hcat Hother Hres Hne)
    as Happ.
  rewrite (requestPrevious_enabled _ q).
  - rewrite Happ. cbn [with_app app generations requests error history historyIndex].
    replace (historyIndex (app s) + 1 - 1) with (historyIndex (app s)) by lia.
    repeat split.
  - rewrite Happ. reflexivity.
  - rewrite Happ. cbn [historyIndex]. lia.
  - rewrite Happ. cbn [history historyIndex].
    replace (historyIndex (app s) + 1 - 1) with (historyIndex (app s)) by lia.
    apply at_index_firstn, Hq.
Qed.

(** X13.  [handlePrevious] does not clear [error]: going back from a
    session that shows an error loads the earlier pair into the two
    options, yet the options area keeps showing the error in their
    place. *)
Theorem previous_keeps_error_on_display (s : System) (q : Question) :
  isLoading (app s) = false ->
  0 < historyIndex (app s) ->
  at_index (history (app s)) (historyIndex (app s) - 1) = Some q ->
  error (app s) <> "" ->
  optionA (app (requestPrevious s)) = question_optionA q
  /\ optionB (app (requestPrevious s)) = question_optionB q
  /\ error (app (requestPrevious s)) = error (app s)
  /\ display (app (requestPrevious s)) = ErrorText (error (app s)).
Proof.
  intros Hload Hpos Hq Herr.
  rewrite (requestPrevious_enabled s q Hload Hpos Hq).
  unfold display. cbn [with_app app optionA optionB error isLoading].
  apply nonempty_true in Herr. rewrite Herr. repeat split.
Qed.

(** X14.  After a click on Next Question that succeeded there is nothing
    to go back to: the cursor is 0 on the only entry, so the Previous
    Question button is disabled and a click on it changes nothing,
    however long [history] was before. *)
Theorem next_click_disables_previous (s : System) (o : FetchOutcome) (x y : string) :
  credential_present ->
  isLoading (app s) = false ->
  fetchOptionsFromAI_response o = inr (JsArray [JsString x; JsString y]) ->
  x <> "" \/ y <> "" ->
  List.length (history (app (settle (List.length (inflight s)) o (requestNext s)))) = 1%nat
  /\ previousDisabled (app (settle (List.length (inflight s)) o (requestNext s))) = true
  /\ requestPrevious (settle (List.length (inflight s)) o (requestNext s))
     = settle (List.length (inflight s)) o (requestNext s).
Proof.
  intros Hkey Hload Hres Hne.
  pose proof (next_click_settled s o x y Hkey Hload Hres Hne) as Happ.
  unfold requestPrevious, previousDisabled. rewrite Happ.
  repeat split.
Qed.

End Navigation.

(** * Properties kept by every event *)

(** A property of sessions that the four ways of changing one keep is
    kept by every event, and so along every run. *)
Section Preservation.

Context {E : Environment}.

Variable P : System -> Prop.
Variable allowed : Event -> Prop.

Hypothesis P_call : forall arg s, P s -> P (handleGenerateNew arg s).

Hypothesis P_select : forall c s,
  allowed (SelectCategory c) -> P s ->
  P (with_app (setSelectedCategory c (app s)) s).

Hypothesis P_previous : forall s a',
  P s -> 0 < historyIndex (app s) ->
  handlePrevious (app s) = inr a' ->
  P (with_app a' s).

Hypothesis P_settle : forall k o c s,
  P s -> nth_error (inflight s) k = Some c ->
  P {| app := handleGenerateNew_resume c
                (snd (fetchOptionsFromAI_resume o (app s)))
                (fst (fetchOptionsFromAI_resume o (app s)));
       inflight := without k (inflight s);
       requests := requests s;
       generations := generations s |}.

Lemma useEffect_preserves (s : System) : P s -> P (useEffect s).
Proof.
  intros HP. unfold useEffect.
  match goal with |- context [ if ?b then _ else _ ] => destruct b end;
    [ apply P_call | ]; exact HP.
Qed.

Lemma step_preserves (s : System) (e : Event) :
  allowed e -> P s -> P (step s e).
Proof.
  intros Hallowed HP. destruct e as [ c | | | k o ]; cbn [step].
  - unfold selectCategory.
    destruct (String.eqb c (selectedCategory (app s))); [ exact HP | ].
    apply useEffect_preserves, P_select; assumption.
  - unfold requestNext.
    destruct (isLoading (app s)); [ exact HP | apply P_call, HP ].
  - unfold requestPrevious.
    destruct (isLoading (app s)); [ exact HP | ].
    destruct (historyIndex (app s) <=? 0) eqn:Hidx; [ exact HP | ].
    cbn [orb]. apply Z.leb_gt in Hidx.
    destruct (handlePrevious (app s)) as [ err | a' ] eqn:Hprev; [ exact HP | ].
    apply useEffect_preserves, P_previous; assumption.
  - unfold settle.
    destruct (nth_error (inflight s) k) as [ c | ] eqn:Hk; [ | exact HP ].
    pose proof (P_settle k o c s HP Hk) as Hsettled.
    destruct (fetchOptionsFromAI_resume o (app s)) as [ a0 v ].
    cbn [fst snd] in Hsettled.
    destruct (recorded v); [ apply useEffect_preserves | ]; exact Hsettled.
Qed.

Lemma run_preserves (es : list Event) (s : System) :
  Forall allowed es -> P s -> P (run s es).
Proof.
  revert s. induction es as [ | e rest IH ]; intros s Hall HP; [ exact HP | ].
  inversion Hall as [ | e' rest' He Hrest ]; subst.
  apply (IH (step s e)); [ exact Hrest | ].
  apply step_preserves; assumption.
Qed.

Lemma mount_preserves : P idle -> P mount.
Proof. intros HP. apply (useEffect_preserves idle HP). Qed.

End Preservation.

Section Runs.

Context {E : Environment}.

Lemma request_category (c : string) (req : Request) :
  fetchOptionsFromAI_request c = inr req ->
  prompt_category req = c /\ method req = "POST".
Proof.
  unfold fetchOptionsFromAI_request.
  destruct apiKey as [ key | ]; [ | discriminate ].
  destruct (String.eqb key ""); [ discriminate | ].
  intros [= <-]. split; reflexivity.
Qed.

Lemma handlePrevious_history (a a' : App) :
  handlePrevious a = inr a' ->
  history a' = history a
  /\ (0 < historyIndex a ->
      exists q, at_index (history a) (historyIndex a - 1) = Some q
                /\ selectedCategory a' = category q).
Proof.
  unfold handlePrevious.
  destruct (0 <? historyIndex a) eqn:Hpos.
  - destruct (at_index (history a) (historyIndex a - 1)) as [ q | ]; [ | discriminate ].
    intros [= <-]. split; [ reflexivity | ]. intros _. exists q. split; reflexivity.
  - intros [= <-]. apply Z.ltb_ge in Hpos. split; [ reflexivity | lia ].
Qed.

Lemma at_index_In {A : Type} (xs : list A) (i : Z) (x : A) :
  at_index xs i = Some x -> In x xs.
Proof.
  unfold at_index. destruct (i <? 0); [ discriminate | ]. apply nth_error_In.
Qed.

Lemma call_sends_one (arg : Arg) (s : System) :
  credential_present ->
  one_request_each s -> one_request_each (handleGenerateNew arg s).
Proof.
  intros Hkey HP. unfold one_request_each in *. unfold handleGenerateNew.
  destruct (fetchOptionsFromAI_request (selectedCategory (app s)))
    as [ err | req ] eqn:Hreq.
  - destruct (request_with_key (selectedCategory (app s)) Hkey) as (req & Hsome).
    congruence.
  - cbn [requests generations]. rewrite !map_app, HP. cbn [map].
    destruct (request_category _ _ Hreq) as (-> & _). reflexivity.
Qed.

(** X15.  With a key, every call of [handleGenerateNew] sends exactly
    one request, for the category that was selected when the call was
    made: along every run from the first render, the categories of the
    requests sent are those of the calls made, in order.  Nothing is sent
    twice and nothing is sent without a call. *)
Theorem one_request_per_generation (es : list Event) :
  credential_present ->
  one_request_each (run mount es)
  /\ List.length (requests (run mount es)) = List.length (generations (run mount es)).
Proof.
  intros Hkey.
  assert (Hinv : one_request_each (run mount es)).
  { apply (run_preserves one_request_each (fun _ => True)).
    - intros arg s. apply call_sends_one, Hkey.
    - intros c s _ HP. exact HP.
    - intros s a' HP _ _. exact HP.
    - intros k o c s HP _. exact HP.
    - apply Forall_forall. intros e _. exact I.
    - apply mount_preserves; [ | reflexivity ].
      intros arg s. apply call_sends_one, Hkey. }
  split; [ exact Hinv | ].
  unfold one_request_each in Hinv.
  rewrite <- (length_map prompt_category), Hinv, length_map. reflexivity.
Qed.

Lemma call_without_key (arg : Arg) (s : System) :
  credential_absent ->
  nothing_sent s -> nothing_sent (handleGenerateNew arg s).
Proof.
  intros Habsent (Hreq & Hfly & Hhist & Hidx).
  unfold nothing_sent, handleGenerateNew.
  assert (Hthrow : fetchOptionsFromAI_request (selectedCategory (app s)) = inl missing_key).
  { unfold fetchOptionsFromAI_request. destruct Habsent as [ -> | -> ]; reflexivity. }
  rewrite Hthrow. cbn. auto.
Qed.

(** X16.  Without a key the session never gets anywhere: along every run
    from the first render no request is sent, no call is in flight,
    [history] stays empty and the cursor stays -1, whatever is clicked. *)
Theorem no_key_nothing_ever_sent (es : list Event) :
  credential_absent ->
  nothing_sent (run mount es)
  /\ previousDisabled (app (run mount es)) = true.
Proof.
  intros Habsent.
  assert (Hinv : nothing_sent (run mount es)).
  { apply (run_preserves nothing_sent (fun _ => True)).
    - intros arg s. apply call_without_key, Habsent.
    - intros c s _ HP. exact HP.
    - intros s a' (_ & _ & _ & Hidx) Hpos _. lia.
    - intros k o c s (_ & Hfly & _) Hk. rewrite Hfly in Hk.
      destruct k; discriminate.
    - apply Forall_forall. intros e _. exact I.
    - apply mount_preserves.
      + intros arg s. apply call_without_key, Habsent.
      + repeat split. }
  split; [ exact Hinv | ].
  destruct Hinv as (_ & _ & _ & Hidx).
  unfold previousDisabled. rewrite Hidx. apply orb_true_r.
Qed.

Lemma settle_keeps_entries (P : Question -> Prop) (o : FetchOutcome)
    (c : Call) (s : System) :
  (forall x y, x <> "" \/ y <> "" ->
     P {| category := call_selectedCategory c;
          question_optionA := x; question_optionB := y |}) ->
  Forall P (history (app s)) ->
  Forall P (history (handleGenerateNew_resume c
              (snd (fetchOptionsFromAI_resume o (app s)))
              (fst (fetchOptionsFromAI_resume o (app s))))).
Proof.
  intros item_ok Hall.
  destruct (resume_client_shape o (app s)) as ((x & y & Hv) & Hhist & _).
  destruct (fetchOptionsFromAI_resume o (app s)) as [ a0 v ].
  cbn [fst snd] in *. subst v.
  destruct (recorded (JsArray [JsString x; JsString y])) eqn:Hrec.
  - apply recorded_pair in Hrec. rewrite resume_recorded by exact Hrec.
    cbn [history]. apply Forall_app. split.
    + destruct (initialLoad (call_arg c)); [ constructor | ].
      apply Forall_slice_to. rewrite Hhist. exact Hall.
    + constructor; [ apply item_ok, Hrec | constructor ].
  - rewrite (not_recorded _ (ex_intro _ x (ex_intro _ y eq_refl)) Hrec).
    rewrite resume_no_options. cbn [history]. rewrite Hhist. exact Hall.
Qed.

(** X17.  Along every run from the first render, overlapping requests
    included, every entry of [history] has something to show: no entry
    with two empty options is ever recorded. *)
Theorem history_entries_are_never_empty (es : list Event) :
  Forall entry_nonempty (history (app (run mount es))).
Proof.
  apply (run_preserves (fun s => Forall entry_nonempty (history (app s)))
                       (fun _ => True)).
  - intros arg s HP.
    destruct (handleGenerateNew_frame arg s) as (_ & _ & -> & _). exact HP.
  - intros c s _ HP. exact HP.
  - intros s a' HP _ Hprev.
    destruct (handlePrevious_history _ _ Hprev) as (Hhist & _).
    cbn [with_app app]. rewrite Hhist. exact HP.
  - intros k o c s HP _. cbn [app].
    apply settle_keeps_entries; [ | exact HP ].
    intros x y Hne. exact Hne.
  - apply Forall_forall. intros e _. exact I.
  - apply (mount_preserves (fun s => Forall entry_nonempty (history (app s)))).
    + intros arg s HP.
      destruct (handleGenerateNew_frame arg s) as (_ & _ & -> & _). exact HP.
    + constructor.
Qed.

Lemma call_keeps_labels (arg : Arg) (s : System) :
  labelled s -> labelled (handleGenerateNew arg s).
Proof.
  intros (Hsel & Hhist & Hfly). unfold labelled, handleGenerateNew.
  destruct (fetchOptionsFromAI_request (selectedCategory (app s))); cbn.
  - auto.
  - repeat split; auto. apply Forall_app. split; [ exact Hfly | ].
    constructor; [ exact Hsel | constructor ].
Qed.

(** X18.  As long as categories are selected with the buttons, the
    selected category, the category of every recorded entry and the
    category every suspended call captured are among the nine labels,
    along every run from the first render. *)
Theorem categories_stay_among_the_labels (es : list Event) :
  Forall from_buttons es ->
  labelled (run mount es).
Proof.
  intros Hbuttons.
  apply (run_preserves labelled from_buttons).
  - apply call_keeps_labels.
  - intros c s Hc (_ & Hhist & Hfly). repeat split; assumption.
  - intros s a' (Hsel & Hhist & Hfly) Hpos Hprev.
    destruct (handlePrevious_history _ _ Hprev) as (Hsame & Hback).
    destruct (Hback Hpos) as (q & Hq & Hcat).
    unfold labelled. cbn [with_app app inflight]. rewrite Hsame, Hcat.
    repeat split; try assumption.
    apply at_index_In in Hq. rewrite Forall_forall in Hhist. apply Hhist, Hq.
  - intros k o c s (Hsel & Hhist & Hfly) Hk.
    assert (Hc : In (call_selectedCategory c) categories).
    { rewrite Forall_forall in Hfly. apply Hfly. apply (nth_error_In _ _ Hk). }
    destruct (resume_client_shape o (app s)) as ((x & y & Hv) & _ & _).
    unfold labelled. cbn [app inflight]. split; [ | split ].
    + destruct (fetchOptionsFromAI_resume o (app s)) as [ a0 v ] eqn:Hr.
      cbn [fst snd] in *. subst v.
      assert (Hsame : selectedCategory a0 = selectedCategory (app s)).
      { revert Hr. unfold fetchOptionsFromAI_resume.
        destruct (fetchOptionsFromAI_response o); intros [= <- _]; reflexivity. }
      destruct (recorded (JsArray [JsString x; JsString y])) eqn:Hrec.
      * apply recorded_pair in Hrec. rewrite resume_recorded by exact Hrec.
        cbn [selectedCategory]. rewrite Hsame. exact Hsel.
      * rewrite (not_recorded _ (ex_intro _ x (ex_intro _ y eq_refl)) Hrec).
        rewrite resume_no_options. cbn [selectedCategory]. rewrite Hsame. exact Hsel.
    + apply (settle_keeps_entries (fun q => In (category q) categories));
        [ intros; exact Hc | exact Hhist ].
    + apply Forall_without, Hfly.
  - exact Hbuttons.
  - apply mount_preserves; [ apply call_keeps_labels | ].
    repeat split; [ left; reflexivity | constructor | constructor ].
Qed.

End Runs.

(** * The further theorems at concrete sessions *)

(** X1 at a service that answers 503 with an empty object. *)
Lemma error_status_is_reported_witness :
  @client_error
    (@fetchOptionsFromAI configured "Animals" (fun _ => Resolved unavailable))
  = "Failed to fetch options: HTTP error! Status: 503. Details: {}. Please check your network or API key configuration."
  /\ returned (@fetchOptionsFromAI configured "Animals" (fun _ => Resolved unavailable))
     = no_options.
Proof.
  destruct (@error_status_is_reported configured unavailable "Animals"
              eq_refl configured_has_key) as (_ & Hmsg & _ & Hnone & _).
  split; [ | exact Hnone ].
  rewrite (Hmsg (JsObject []) eq_refl). vm_compute. reflexivity.
Defined.

(** X3 at a click on Next Question in the session with two entries. *)
Lemma successful_generation_shows_what_it_recorded_witness :
  at_index
    (history (app (@generation configured ClickEvent (reply ["Owls"; "Larks"]) two_rounds)))
    (historyIndex (app (@generation configured ClickEvent (reply ["Owls"; "Larks"]) two_rounds)))
  = Some {| category := "Animals";
            question_optionA := "Owls"; question_optionB := "Larks" |}
  /\ cursor_valid (app (@generation configured ClickEvent (reply ["Owls"; "Larks"]) two_rounds)).
Proof.
  destruct (@successful_generation_shows_what_it_recorded configured
              two_rounds ClickEvent (reply ["Owls"; "Larks"]) "Owls" "Larks")
    as (Hentry & _ & _ & _ & _ & Hvalid & _).
  - exact configured_has_key.
  - right. vm_compute. split; [ discriminate | reflexivity ].
  - vm_compute. reflexivity.
  - left. discriminate.
  - exact (conj Hentry Hvalid).
Defined.

(** X4 with the answer of the prompt's own example. *)
Lemma first_load_records_one_entry_witness :
  history (app (@settle configured 0
                  (reply ["Pineapple on pizza"; "No pineapple on pizza"])
                  (@mount configured)))
  = [{| category := "Everyday Life";
        question_optionA := "Pineapple on pizza";
        question_optionB := "No pineapple on pizza" |}]
  /\ historyIndex (app (@settle configured 0
                          (reply ["Pineapple on pizza"; "No pineapple on pizza"])
                          (@mount configured))) = 0.
Proof.
  destruct (@first_load_records_one_entry configured
              (reply ["Pineapple on pizza"; "No pineapple on pizza"])
              "Pineapple on pizza" "No pineapple on pizza")
    as (Happ & _).
  - exact configured_has_key.
  - vm_compute. reflexivity.
  - left. discriminate.
  - rewrite Happ. split; reflexivity.
Defined.

(** X5 at a click on Next Question that finds no network. *)
Lemma failed_generation_is_not_retried_witness :
  List.length (generations (@generation configured ClickEvent offline two_rounds))
  = S (List.length (generations two_rounds))
  /\ inflight (@generation configured ClickEvent offline two_rounds) = [].
Proof.
  destruct (@failed_generation_is_not_retried configured two_rounds ClickEvent offline)
    as (Hgen & Hfly & _).
  - vm_compute. reflexivity.
  - split.
    + rewrite Hgen, length_app. simpl. lia.
    + rewrite Hfly. vm_compute. reflexivity.
Defined.

(** X6 at a click on Next Question that finds no network. *)
Lemma caught_error_is_displayed_witness :
  display (app (@generation configured ClickEvent offline two_rounds))
  = ErrorText "Failed to fetch options: Failed to fetch. Please check your network or API key configuration.".
Proof.
  rewrite (@caught_error_is_displayed configured two_rounds ClickEvent offline
             (mkExn "Failed to fetch")).
  - reflexivity.
  - vm_compute. reflexivity.
Defined.

(** X7 at a click on Next Question answered with two empty strings. *)
Lemma two_empty_strings_show_placeholders_witness :
  display (app (@generation configured ClickEvent (reply [""; ""]) two_rounds))
  = Panels "Select a category and click 'Next Question'!"
           "Your options will appear here.".
Proof.
  destruct (@two_empty_strings_show_placeholders configured
              two_rounds ClickEvent (reply [""; ""])) as (Hshown & _).
  - exact configured_has_key.
  - eexists. split; vm_compute; reflexivity.
  - exact Hshown.
Defined.

(** X8 while the first load is outstanding. *)
Lemma selecting_while_loading_overlaps_witness :
  isLoading (app (@mount configured)) = true
  /\ List.length (inflight (@mount configured)) = 1%nat
  /\ List.length (inflight (@selectCategory configured "Animals" (@mount configured))) = 2%nat
  /\ List.length (requests (@selectCategory configured "Animals" (@mount configured))) = 2%nat.
Proof.
  destruct (@selecting_while_loading_overlaps configured (@mount configured) "Animals")
    as (Hfly & Hsent & _).
  - exact configured_has_key.
  - vm_compute. discriminate.
  - left. vm_compute. reflexivity.
  - refine (conj _ (conj _ (conj _ _))).
    + vm_compute. reflexivity.
    + vm_compute. reflexivity.
    + rewrite Hfly, length_app. vm_compute. reflexivity.
    + rewrite Hsent. vm_compute. reflexivity.
Defined.


(** X10 in the session whose cursor the overlapping requests left past
    the end. *)
Lemma cursor_past_end_regenerates_witness :
  cursor_past_end (app past_end)
  /\ cursor_past_end (app (@settle configured 0 (reply ["Read"; "Write"]) past_end))
  /\ List.length (generations (@settle configured 0 (reply ["Read"; "Write"]) past_end))
     = S (List.length (generations past_end)).
Proof.
  assert (Hpast : cursor_past_end (app past_end)).
  { unfold cursor_past_end. vm_compute. discriminate. }
  destruct (@cursor_past_end_regenerates configured 0 (reply ["Read"; "Write"]) past_end
              {| call_arg := BoolArg false;
                 call_selectedCategory := "Superpowers";
                 call_historyIndex := 1 |} "Read" "Write")
    as (Hstill & _ & _ & Hgen).
  - vm_compute. reflexivity.
  - reflexivity.
  - exact Hpast.
  - vm_compute. reflexivity.
  - left. discriminate.
  - refine (conj Hpast (conj Hstill _)).
    rewrite Hgen, length_app. simpl. lia.
Defined.

(** X11 from the session with two entries: back to the first, then on to
    Superpowers; the entry about animals is gone. *)
Lemma previous_then_change_discards_branch_witness :
  history (app (@settle configured (List.length (inflight two_rounds))
                  (reply ["Fly"; "Teleport"])
                  (@selectCategory configured "Superpowers"
                     (@requestPrevious configured two_rounds))))
  = [{| category := "Everyday Life";
        question_optionA := "Tea"; question_optionB := "Coffee" |};
     {| category := "Superpowers";
        question_optionA := "Fly"; question_optionB := "Teleport" |}].
Proof.
  destruct (@previous_then_change_discards_branch configured
              two_rounds "Superpowers" (reply ["Fly"; "Teleport"])
              {| category := "Everyday Life";
                 question_optionA := "Tea"; question_optionB := "Coffee" |}
              "Fly" "Teleport")
    as (Hhist & _).
  - exact configured_has_key.
  - vm_compute. reflexivity.
  - vm_compute. reflexivity.
  - vm_compute. reflexivity.
  - discriminate.
  - vm_compute. reflexivity.
  - left. discriminate.
  - rewrite Hhist. vm_compute. reflexivity.
Defined.

(** X12 from the session with two entries: on to Superpowers, then back
    to the entry about animals. *)
Lemma previous_undoes_category_change_witness :
  optionA (app (@requestPrevious configured
                  (@settle configured (List.length (inflight two_rounds))
                     (reply ["Fly"; "Teleport"])
                     (@selectCategory configured "Superpowers" two_rounds)))) = "Cats"
  /\ selectedCategory
       (app (@requestPrevious configured
               (@settle configured (List.length (inflight two_rounds))
                  (reply ["Fly"; "Teleport"])
                  (@selectCategory configured "Superpowers" two_rounds)))) = "Animals"
  /\ historyIndex
       (app (@requestPrevious configured
               (@settle configured (List.length (inflight two_rounds))
                  (reply ["Fly"; "Teleport"])
                  (@selectCategory configured "Superpowers" two_rounds)))) = 1.
Proof.
  destruct (@previous_undoes_category_change configured
              two_rounds "Superpowers" (reply ["Fly"; "Teleport"])
              {| category := "Animals";
                 question_optionA := "Cats"; question_optionB := "Dogs" |}
              "Fly" "Teleport")
    as (Happ & _).
  - exact configured_has_key.
  - vm_compute. reflexivity.
  - discriminate.
  - vm_compute. discriminate.
  - vm_compute. reflexivity.
  - left. discriminate.
  - rewrite Happ. cbn [optionA selectedCategory historyIndex
                       question_optionA category].
    refine (conj eq_refl (conj eq_refl _)). vm_compute. reflexivity.
Defined.

(** X13 in the session that shows a network error over two entries. *)
Lemma previous_keeps_error_on_display_witness :
  optionA (app (@requestPrevious configured errored_with_history)) = "Tea"
  /\ display (app (@requestPrevious configured errored_with_history))
     = ErrorText "Failed to fetch options: Failed to fetch. Please check your network or API key configuration.".
Proof.
  destruct (@previous_keeps_error_on_display configured errored_with_history
              {| category := "Everyday Life";
                 question_optionA := "Tea"; question_optionB := "Coffee" |})
    as (Ha & _ & _ & Hshown).
  - vm_compute. reflexivity.
  - vm_compute. reflexivity.
  - vm_compute. reflexivity.
  - vm_compute. discriminate.
  - split; [ exact Ha | ]. rewrite Hshown. vm_compute. reflexivity.
Defined.

(** X14 in the session with three entries. *)
Lemma next_click_disables_previous_witness :
  List.length (history (app three_rounds)) = 3%nat
  /\ previousDisabled (app three_rounds) = false
  /\ previousDisabled
       (app (@settle configured (List.length (inflight three_rounds))
               (reply ["Run"; "Swim"]) (@requestNext configured three_rounds))) = true.
Proof.
  destruct (@next_click_disables_previous configured three_rounds
              (reply ["Run"; "Swim"]) "Run" "Swim")
    as (_ & Hoff & _).
  - exact configured_has_key.
  - vm_compute. reflexivity.
  - vm_compute. reflexivity.
  - left. discriminate.
  - refine (conj _ (conj _ Hoff)); vm_compute; reflexivity.
Defined.

(** X15 along the overlapping requests. *)
Lemma one_request_per_generation_witness :
  List.length (requests (@run configured (@mount configured) overlapping)) = 5%nat
  /\ List.length (generations (@run configured (@mount configured) overlapping)) = 5%nat.
Proof.
  destruct (@one_request_per_generation configured overlapping configured_has_key)
    as (_ & Hsame).
  split; [ rewrite Hsame | ]; vm_compute; reflexivity.
Defined.

(** X16 in a build without the key, whatever is clicked. *)
Lemma no_key_nothing_ever_sent_witness :
  @nothing_sent
    (@run unconfigured (@mount unconfigured)
       [ClickNext; SelectCategory "Animals"; ClickPrevious; ClickNext])
  /\ List.length (generations
       (@run unconfigured (@mount unconfigured)
          [ClickNext; SelectCategory "Animals"; ClickPrevious; ClickNext])) = 4%nat.
Proof.
  destruct (@no_key_nothing_ever_sent unconfigured
              [ClickNext; SelectCategory "Animals"; ClickPrevious; ClickNext])
    as (Hnothing & _).
  - left. reflexivity.
  - split; [ exact Hnothing | vm_compute; reflexivity ].
Defined.

Lemma overlapping_from_buttons : Forall from_buttons overlapping.
Proof.
  unfold overlapping.
  repeat (constructor;
          [ cbn; try exact I; repeat (try (left; reflexivity); right) | ]).
  constructor.
Qed.

(** X18 along the overlapping requests. *)
Lemma categories_stay_among_the_labels_witness :
  In (selectedCategory (app past_end)) categories
  /\ labelled past_end.
Proof.
  pose proof (@categories_stay_among_the_labels configured overlapping
                overlapping_from_buttons) as Hlabelled.
  exact (conj (proj1 Hlabelled) Hlabelled).
Defined.

Lemma one_at_a_time_gated : @gated_run configured (@mount configured) one_at_a_time.
Proof.
  cbn [one_at_a_time gated_run gated].
  repeat match goal with |- _ /\ _ => split end; try exact I; vm_compute; reflexivity.
Qed.

(** X19 along a session of clicks and answers, one request at a time. *)
Lemma cursor_valid_from_mount_witness :
  cursor_valid (app (@run configured (@mount configured) one_at_a_time))
  /\ historyIndex (app (@run configured (@mount configured) one_at_a_time)) = 1.
Proof.
  split.
  - exact (@cursor_valid_from_mount configured one_at_a_time one_at_a_time_gated).
  - vm_compute. reflexivity.
Defined.

(** C4.  With two calls for Superpowers suspended, the cursor on the
    second of two entries and that entry about animals, the older call,
    which is no initial load, settles with success: [history] is cut to
    the one entry the call's closure knew of, where the cursor of the
    moment asks for two, and the cursor moves to 2, past the last index
    1.  After a change of category that failed, a click on Next Question
    that succeeds leaves the new entry alone, cursor 0. *)
Theorem stale_cursor_truncates_short :
  historyIndex (app one_to_settle) = 1
  /\ at_index (history (app one_to_settle)) (historyIndex (app one_to_settle))
     = Some {| category := "Animals";
               question_optionA := "Cats"; question_optionB := "Dogs" |}
  /\ selectedCategory (app one_to_settle) = "Superpowers"
  /\ nth_error (inflight one_to_settle) 0
     = Some {| call_arg := BoolArg false;
               call_selectedCategory := "Superpowers";
               call_historyIndex := 0 |}
  /\ history (app (@settle configured 0 (reply ["Fly"; "Teleport"]) one_to_settle))
     = [{| category := "Everyday Life";
           question_optionA := "Tea"; question_optionB := "Coffee" |};
        {| category := "Superpowers";
           question_optionA := "Fly"; question_optionB := "Teleport" |}]
  /\ history (app (@settle configured 0 (reply ["Fly"; "Teleport"]) one_to_settle))
     <> (firstn 2 (history (app one_to_settle))
         ++ [{| category := "Superpowers";
                question_optionA := "Fly"; question_optionB := "Teleport" |}])%list
  /\ historyIndex (app (@settle configured 0 (reply ["Fly"; "Teleport"]) one_to_settle)) = 2
  /\ historyIndex (app errored_with_history) = 1
  /\ selectedCategory (app errored_with_history) = "Superpowers"
  /\ inflight errored_with_history = []
  /\ history (app (@run configured errored_with_history
                     [ClickNext; Settle 0 (reply ["Ice"; "Fire"])]))
     = [{| category := "Superpowers";
           question_optionA := "Ice"; question_optionB := "Fire" |}]
  /\ historyIndex (app (@run configured errored_with_history
                          [ClickNext; Settle 0 (reply ["Ice"; "Fire"])])) = 0.
Proof.
  repeat match goal with |- _ /\ _ => split end;
    try (vm_compute; reflexivity).
  vm_compute. discriminate.
Qed.

